(** * The goal-agent dashboard page (src/app/page.tsx)

    A shallow embedding of the page component [Home]: its formatting
    helpers, the derived log feed, and the run controller
    ([startAgent], [stopAgent], [handleSubmit]) together with the timers
    the controller suspends on.

    The module [@/lib/agent] (the types of the agent state, the functions
    [initializeAgentState] and [stepAgent], the constant
    [AgentConstants.MAX_ITERATIONS]) is imported by the page and is not part
    of it.  Its types are written down from the data model of the spec; its
    functions and its constant are parameters of the development. *)

From stdpp Require Import base numbers option list sorting gmap strings fin_maps.
From Stdlib Require Import Ascii.

Local Open Scope Z_scope.

(** ** Strings

    Text typed by the user is a JavaScript string: a sequence of UTF-16 code
    units.  The literals of the source (enum tags, labels) are ASCII and are
    kept as [string]. *)

Definition jsstring : Type := list N.

Definition js_of_string (s : string) : jsstring :=
  (fun c => N_of_ascii c) <$> String.list_ascii_of_string s.

(** [WhiteSpace] and [LineTerminator] code points of ECMAScript, the ones
    [String.prototype.trim] strips.  All of them are single code units. *)
Definition isWhiteSpace (c : N) : bool :=
  ((9 <=? c) && (c <=? 13) || (c =? 32) || (c =? 160) || (c =? 5760)
   || (8192 <=? c) && (c <=? 8202) || (c =? 8232) || (c =? 8233)
   || (c =? 8239) || (c =? 8287) || (c =? 12288) || (c =? 65279))%N.

Fixpoint trimStart (s : jsstring) : jsstring :=
  match s with
  | [] => []
  | c :: s' => if isWhiteSpace c then trimStart s' else s
  end.

Definition trimEnd (s : jsstring) : jsstring := rev (trimStart (rev s)).

Definition trim (s : jsstring) : jsstring := trimEnd (trimStart s).

(** Truthiness of a string: only the empty string is falsy. *)
Definition truthy (s : jsstring) : bool :=
  match s with [] => false | _ :: _ => true end.

(** A string that is not empty and neither starts nor ends with a
    whitespace character. *)
Definition clean (s : jsstring) : Prop :=
  (exists c, head s = Some c /\ isWhiteSpace c = false)
  /\ (exists c, last s = Some c /\ isWhiteSpace c = false).

(** ** Data model of [@/lib/agent] *)

Inductive AgentTaskStatus := pending | in_progress | completed | blocked.
Inductive Confidence := low | medium | high.
Inductive AgentTopic := analysis | plan | execution | reflection | summary.

(** The string each enum value is at run time. *)
Definition status_tag (s : AgentTaskStatus) : string :=
  match s with
  | pending => "pending"
  | in_progress => "in-progress"
  | completed => "completed"
  | blocked => "blocked"
  end.

Definition confidence_tag (c : Confidence) : string :=
  match c with low => "low" | medium => "medium" | high => "high" end.

Definition topic_tag (t : AgentTopic) : string :=
  match t with
  | analysis => "analysis"
  | plan => "plan"
  | execution => "execution"
  | reflection => "reflection"
  | summary => "summary"
  end.

(** Modelled from the spec: the record types of [@/lib/agent], which the page
    imports; fields and enum values as in the spec's data model table.
    Numbers that count or stamp (iteration, timestamp, the metrics) are
    integers. *)
Record AgentTask := {
  task_id : jsstring;
  title : jsstring;
  detail : jsstring;
  status : AgentTaskStatus;
  insights : list jsstring
}.

Record AgentAssumption := {
  assumption_id : jsstring;
  statement : jsstring;
  confidence : Confidence
}.

Record AgentLog := {
  log_id : jsstring;
  topic : AgentTopic;
  message : jsstring;
  timestamp : Z
}.

Record AgentMetrics := {
  completionRate : Z;
  momentum : Z;
  blockedCount : Z;
  focus : jsstring
}.

Record AgentState := {
  goal : jsstring;
  iteration : Z;
  tasks : list AgentTask;
  assumptions : list AgentAssumption;
  logs : list AgentLog;
  metrics : AgentMetrics;
  isComplete : bool;
  isStalled : bool;
  resultSummary : option jsstring
}.

(** ** Formatting helpers *)

Module Format.

(** The keys of the CSS module [styles] the helpers select. *)
Inductive Style :=
  | confidenceHigh | confidenceMedium | confidenceLow
  | taskStatusCompleted | taskStatusActive | taskStatusBlocked
  | taskStatusPending
  | topicAnalysis | topicPlan | topicExecution | topicReflection
  | topicSummary.

(** The label tables are object literals; the maps below are their own
    properties.  What indexing a table by a tag gives is [read], further
    down. *)
Definition statusLabels : gmap string string :=
  <["pending" := "Pending"]>
  (<["in-progress" := "In Progress"]>
  (<["completed" := "Completed"]>
  (<["blocked" := "Blocked"]> ∅))).

Definition topicLabels : gmap string string :=
  <["analysis" := "Analysis"]>
  (<["plan" := "Planning"]>
  (<["execution" := "Execution"]>
  (<["reflection" := "Reflection"]>
  (<["summary" := "Summary"]> ∅)))).

(** The own property names of [Object.prototype], which an object literal
    inherits from. *)
Definition objectPrototypeKeys : list string :=
  ["constructor"; "__defineGetter__"; "__defineSetter__"; "hasOwnProperty";
   "__lookupGetter__"; "__lookupSetter__"; "isPrototypeOf";
   "propertyIsEnumerable"; "toString"; "valueOf"; "__proto__";
   "toLocaleString"].

(** What [table[key]] evaluates to: the label the table has for the key,
    else the member of [Object.prototype] of that name, else
    [undefined]. *)
Inductive Member :=
  | Label (text : string)
  | Inherited (name : string)
  | Undefined.

Definition read (table : gmap string string) (key : string) : Member :=
  match table !! key with
  | Some text => Label text
  | None =>
      if bool_decide (key ∈ objectPrototypeKeys) then Inherited key
      else Undefined
  end.

(** The helpers compare the run-time tag, so they are defined on every
    string, not only on the tags of the enum. *)
Definition confidenceClass (confidence : string) : Style :=
  if String.eqb confidence "high" then confidenceHigh
  else if String.eqb confidence "medium" then confidenceMedium
  else confidenceLow.

Definition taskStatusClass (status : string) : Style :=
  if String.eqb status "completed" then taskStatusCompleted
  else if String.eqb status "in-progress" then taskStatusActive
  else if String.eqb status "blocked" then taskStatusBlocked
  else taskStatusPending.

Definition topicClass (topic : string) : Style :=
  if String.eqb topic "analysis" then topicAnalysis
  else if String.eqb topic "plan" then topicPlan
  else if String.eqb topic "execution" then topicExecution
  else if String.eqb topic "reflection" then topicReflection
  else topicSummary.

(** What each enum value is expected to be shown as. *)
Definition status_style (s : AgentTaskStatus) : Style :=
  match s with
  | pending => taskStatusPending
  | in_progress => taskStatusActive
  | completed => taskStatusCompleted
  | blocked => taskStatusBlocked
  end.

Definition confidence_style (c : Confidence) : Style :=
  match c with
  | low => confidenceLow
  | medium => confidenceMedium
  | high => confidenceHigh
  end.

Definition topic_style (t : AgentTopic) : Style :=
  match t with
  | analysis => topicAnalysis
  | plan => topicPlan
  | execution => topicExecution
  | reflection => topicReflection
  | summary => topicSummary
  end.

Definition is_status_style (c : Style) : bool :=
  match c with
  | taskStatusCompleted | taskStatusActive | taskStatusBlocked
  | taskStatusPending => true
  | _ => false
  end.

Definition is_topic_style (c : Style) : bool :=
  match c with
  | topicAnalysis | topicPlan | topicExecution | topicReflection
  | topicSummary => true
  | _ => false
  end.

Definition is_confidence_style (c : Style) : bool :=
  match c with
  | confidenceHigh | confidenceMedium | confidenceLow => true
  | _ => false
  end.

End Format.

(** ** The log feed

    [orderedLogs] copies the array [agentState.logs] and sorts the copy in
    place.  Arrays are objects: they live in a store and are passed by
    reference, so the copy and the in-place sort are written on a store of
    arrays. *)

Module Feed.

Definition loc : Type := positive.

Abbreviation heap := (gmap loc (list AgentLog)).

(** The comparator handed to [sort]. *)
Definition byTimestamp (a b : AgentLog) : Z := timestamp a - timestamp b.

Section ArraySort.
Context {A : Type} (compareFn : A -> A -> Z).

(** [Array.prototype.sort] is a stable sort by the sign of [compareFn]: an
    element moves behind another one only when the comparator is
    positive. *)
Fixpoint sort_insert (x : A) (l : list A) : list A :=
  match l with
  | [] => [x]
  | y :: l' => if 0 <? compareFn x y then y :: sort_insert x l' else x :: l
  end.

Fixpoint Array_sort (l : list A) : list A :=
  match l with
  | [] => []
  | x :: l' => sort_insert x (Array_sort l')
  end.
End ArraySort.

(** An array literal: a new array at an unused location. *)
Definition array_literal (xs : list AgentLog) (h : heap) : loc * heap :=
  let r := fresh (dom h) in (r, <[r := xs]> h).

(** [[...a]]: a new array with the elements of [a]. *)
Definition spread (a : loc) (h : heap) : option (loc * heap) :=
  xs ← h !! a; Some (array_literal xs h).

(** [a.sort(byTimestamp)]: sorts [a] itself and returns it. *)
Definition sort_in_place (a : loc) (h : heap) : option (loc * heap) :=
  xs ← h !! a; Some (a, <[a := Array_sort byTimestamp xs]> h).

(** The memoised derivation.  [agentState] is [None] for [null], and
    otherwise the reference held in the field [logs] of the state. *)
Definition orderedLogs (agentState : option loc) (h : heap)
  : option (loc * heap) :=
  match agentState with
  | None => Some (array_literal [] h)
  | Some logsRef => '(copy, h') ← spread logsRef h; sort_in_place copy h'
  end.

(** Non-decreasing timestamps. *)
Definition ts_le (a b : AgentLog) : Prop := timestamp a <= timestamp b.

End Feed.

(** ** The run controller *)

(** A call into the agent library returns or throws. *)
Inductive Completion (E A : Type) :=
  | Normal (a : A)
  | Throw (e : E).
Arguments Normal {E A} a.
Arguments Throw {E A} e.

(** What the page imports from [@/lib/agent]. *)
Class AgentLib := {
  Exn : Type;
  initializeAgentState : jsstring -> AgentState;
  stepAgent : AgentState -> Completion Exn AgentState;
  MAX_ITERATIONS : Z
}.

Module Home.

(** The hooks of the component: three [useState] cells and the ref. *)
Record Hooks := {
  goalInput : jsstring;
  agentState : option AgentState;
  isRunning : bool;
  loopRef : bool
}.

(** Where a call of [startAgent] is suspended. *)
Inductive Frame :=
  | AwaitSettle (initial : AgentState)        (* await delay(150) *)
  | AwaitStep (currentState : AgentState).    (* await delay(650) *)

Record Suspended := { frame : Frame; due : Z }.

Section Controller.
Context `{lib : AgentLib}.

(** What a run does, as seen from outside; [r] numbers the calls of
    [startAgent] in the order they were made. *)
Inductive Obs :=
  | Initialized (r : nat) (g : jsstring)   (* initializeAgentState(g) *)
  | Published (r : nat) (s : AgentState)   (* setAgentState(s) *)
  | Called (r : nat) (s : AgentState)      (* stepAgent(s) *)
  | Exited (r : nat)                       (* the loop was left *)
  | Rejected (r : nat) (e : Exn).          (* the call threw *)

Record World := {
  hooks : Hooks;
  timers : gmap nat Suspended;   (* pending timeouts, by run *)
  now : Z;                       (* clock, in ms *)
  nextRun : nat;
  trace : list Obs               (* newest first *)
}.

Definition with_hooks (f : Hooks -> Hooks) (w : World) : World :=
  {| hooks := f (hooks w); timers := timers w; now := now w;
     nextRun := nextRun w; trace := trace w |}.

Definition record (o : Obs) (w : World) : World :=
  {| hooks := hooks w; timers := timers w; now := now w;
     nextRun := nextRun w; trace := o :: trace w |}.

(** The setters of the [useState] cells.  The value set is taken to be
    rendered before the next event is handled: the guards of the handlers
    and the [disabled] attributes read the value last set. *)
Definition setGoalInput (text : jsstring) : World -> World :=
  with_hooks (fun h =>
    {| goalInput := text; agentState := agentState h;
       isRunning := isRunning h; loopRef := loopRef h |}).

Definition setIsRunning (b : bool) : World -> World :=
  with_hooks (fun h =>
    {| goalInput := goalInput h; agentState := agentState h;
       isRunning := b; loopRef := loopRef h |}).

Definition setLoopRef (b : bool) : World -> World :=
  with_hooks (fun h =>
    {| goalInput := goalInput h; agentState := agentState h;
       isRunning := isRunning h; loopRef := b |}).

Definition setAgentState (r : nat) (s : AgentState) (w : World) : World :=
  record (Published r s)
    (with_hooks (fun h =>
       {| goalInput := goalInput h; agentState := Some s;
          isRunning := isRunning h; loopRef := loopRef h |}) w).

(** [await delay(ms)]: run [r] is parked until the timeout fires. *)
Definition delay (ms : Z) (r : nat) (k : Frame) (w : World) : World :=
  {| hooks := hooks w;
     timers := <[r := {| frame := k; due := now w + ms |}]> (timers w);
     now := now w; nextRun := nextRun w; trace := trace w |}.

Definition new_run (w : World) : nat * World :=
  (nextRun w,
   {| hooks := hooks w; timers := timers w; now := now w;
      nextRun := S (nextRun w); trace := trace w |}).

(** The three stop predicates tested after a step. *)
Definition flagged (s : AgentState) : bool := isComplete s || isStalled s.
Definition at_ceiling (s : AgentState) : bool :=
  MAX_ITERATIONS <=? iteration s.
Definition stopped (s : AgentState) : bool := flagged s || at_ceiling s.

(** After the loop: lines 108-109. *)
Definition loop_exit (r : nat) (w : World) : World :=
  record (Exited r) (setIsRunning false (setLoopRef false w)).

(** The head of [while (loopRef.current)]. *)
Definition loop_head (r : nat) (currentState : AgentState) (w : World)
  : World :=
  if loopRef (hooks w) then delay 650 r (AwaitStep currentState) w
  else loop_exit r w.

(** [startAgent(goal)] up to its first [await]. *)
Definition startAgent (goal : jsstring) (w : World) : World :=
  if negb (truthy (trim goal)) then w
  else
    let '(r, w) := new_run w in
    let w := setLoopRef false w in
    let initial := initializeAgentState goal in
    let w := record (Initialized r goal) w in
    let w := setAgentState r initial w in
    delay 150 r (AwaitSettle initial) w.

(** The rest of [startAgent], from the [await] that [k] stands for up to
    the next one or to the end of the call. *)
Definition resume (r : nat) (k : Frame) (w : World) : World :=
  match k with
  | AwaitSettle initial =>
      let w := setLoopRef true w in
      let w := setIsRunning true w in
      loop_head r initial w
  | AwaitStep currentState =>
      let w := record (Called r currentState) w in
      match stepAgent currentState with
      | Throw e => record (Rejected r e) w
      | Normal currentState =>
          let w := setAgentState r currentState w in
          if flagged currentState then loop_exit r w
          else if at_ceiling currentState then loop_exit r w
          else loop_head r currentState w
      end
  end.

Definition stopAgent (w : World) : World :=
  setIsRunning false (setLoopRef false w).

Definition handleSubmit (w : World) : World :=
  if isRunning (hooks w) then w
  else
    let trimmedGoal := trim (goalInput (hooks w)) in
    if negb (truthy trimmedGoal) then w
    else startAgent trimmedGoal w.

(** The attributes of the form controls that the page computes from its
    hooks. *)
Record View := {
  textareaDisabled : bool;
  submitDisabled : bool;
  stopDisabled : bool
}.

Definition render (h : Hooks) : View :=
  {| textareaDisabled := isRunning h;
     submitDisabled := isRunning h;
     stopDisabled := negb (isRunning h) |}.

(** What can happen to the page.  A disabled control raises no event, a
    timeout does not fire before it is due. *)
Inductive Event :=
  | Elapse (ms : Z)
  | Change (text : jsstring)
  | Submit
  | ClickStop
  | Timer (r : nat).

Definition fire (r : nat) (w : World) : option World :=
  t ← timers w !! r;
  if due t <=? now w then
    Some (resume r (frame t)
            {| hooks := hooks w; timers := delete r (timers w);
               now := now w; nextRun := nextRun w; trace := trace w |})
  else None.

Definition exec (ev : Event) (w : World) : option World :=
  match ev with
  | Elapse ms =>
      if 0 <=? ms then
        Some {| hooks := hooks w; timers := timers w; now := now w + ms;
                nextRun := nextRun w; trace := trace w |}
      else None
  | Change text =>
      if textareaDisabled (render (hooks w)) then None
      else Some (setGoalInput text w)
  | Submit =>
      if submitDisabled (render (hooks w)) then None
      else Some (handleSubmit w)
  | ClickStop =>
      if stopDisabled (render (hooks w)) then None
      else Some (stopAgent w)
  | Timer r => fire r w
  end.

Fixpoint execs (evs : list Event) (w : World) : option World :=
  match evs with
  | [] => Some w
  | ev :: evs' => w' ← exec ev w; execs evs' w'
  end.

(** The page as first rendered. *)
Definition initial_world : World :=
  {| hooks :=
       {| goalInput := js_of_string
            "Launch an ethical, autonomous onboarding assistant that accelerates user activation.";
          agentState := None; isRunning := false; loopRef := false |};
     timers := ∅; now := 0; nextRun := 0; trace := [] |}.

Inductive reachable : World -> Prop :=
  | reach_initial : reachable initial_world
  | reach_exec ev w w' :
      reachable w -> exec ev w = Some w' -> reachable w'.

(** The states run [r] published and the arguments it gave to [stepAgent],
    oldest first. *)
Fixpoint published_by (r : nat) (tr : list Obs) : list AgentState :=
  match tr with
  | [] => []
  | Published r' s :: tr' =>
      if decide (r' = r) then published_by r tr' ++ [s]
      else published_by r tr'
  | _ :: tr' => published_by r tr'
  end.

Fixpoint called_by (r : nat) (tr : list Obs) : list AgentState :=
  match tr with
  | [] => []
  | Called r' s :: tr' =>
      if decide (r' = r) then called_by r tr' ++ [s] else called_by r tr'
  | _ :: tr' => called_by r tr'
  end.

Definition run_of (o : Obs) : nat :=
  match o with
  | Initialized r _ | Published r _ | Called r _ | Exited r
  | Rejected r _ => r
  end.

(** An uninterrupted run: the settle delay, then [n] step delays. *)
Fixpoint iterations (r : nat) (n : nat) : list Event :=
  match n with
  | O => []
  | S n' => Elapse 650 :: Timer r :: iterations r n'
  end.

Definition uninterrupted (r : nat) (n : nat) : list Event :=
  Elapse 150 :: Timer r :: iterations r n.

(** *** The moves of a run

    Every event that gets through either leaves all runs alone or moves
    one run along the body of [startAgent]. *)
Inductive Move (w w' : World) : Prop :=
  | QuietMove
      (Ht : timers w' = timers w)
      (Hn : nextRun w' = nextRun w)
      (Htr : trace w' = trace w)
  | StartMove (g : jsstring) (d : Z)
      (Hg : truthy (trim g) = true)
      (Ht : timers w' =
            <[nextRun w :=
                {| frame := AwaitSettle (initializeAgentState g);
                   due := d |}]> (timers w))
      (Hn : nextRun w' = S (nextRun w))
      (Htr : trace w' =
             Published (nextRun w) (initializeAgentState g)
               :: Initialized (nextRun w) g :: trace w)
  | SettleMove (r : nat) (s : AgentState) (d d' : Z)
      (Hp : timers w !! r = Some {| frame := AwaitSettle s; due := d |})
      (Ht : timers w' =
            <[r := {| frame := AwaitStep s; due := d' |}]> (timers w))
      (Hn : nextRun w' = nextRun w)
      (Htr : trace w' = trace w)
  | StepMove (r : nat) (s s' : AgentState) (d d' : Z)
      (Hp : timers w !! r = Some {| frame := AwaitStep s; due := d |})
      (Hs : stepAgent s = Normal s')
      (Hgo : stopped s' = false)
      (Ht : timers w' =
            <[r := {| frame := AwaitStep s'; due := d' |}]> (timers w))
      (Hn : nextRun w' = nextRun w)
      (Htr : trace w' = Published r s' :: Called r s :: trace w)
  | LastMove (r : nat) (s s' : AgentState) (d : Z)
      (Hp : timers w !! r = Some {| frame := AwaitStep s; due := d |})
      (Hs : stepAgent s = Normal s')
      (Hwhy : stopped s' = true \/ loopRef (hooks w) = false)
      (Ht : timers w' = delete r (timers w))
      (Hn : nextRun w' = nextRun w)
      (Htr : trace w' =
             Exited r :: Published r s' :: Called r s :: trace w)
  | ThrowMove (r : nat) (s : AgentState) (e : Exn) (d : Z)
      (Hp : timers w !! r = Some {| frame := AwaitStep s; due := d |})
      (Hs : stepAgent s = Throw e)
      (Ht : timers w' = delete r (timers w))
      (Hn : nextRun w' = nextRun w)
      (Htr : trace w' = Rejected r e :: Called r s :: trace w)
      (Hh : hooks w' = hooks w).

(** Whether an observation ends run [r]. *)
Definition ends (r : nat) (o : Obs) : bool :=
  match o with
  | Exited r' | Rejected r' _ => bool_decide (r' = r)
  | _ => false
  end.

(** How the states a run published ([P]) and the states it stepped ([C])
    relate, given where the run is parked. *)
Definition run_shape (parked : option Frame) (P C : list AgentState)
  : Prop :=
  Forall (fun s => stopped s = false) (tail C)
  /\ match parked with
     | Some (AwaitSettle s) => P = [s] /\ C = []
     | Some (AwaitStep s) =>
         P = C ++ [s] /\ (C <> [] -> stopped s = false)
     | None => (exists s, P = C ++ [s]) \/ P = C
     end.

Definition well_formed (w : World) : Prop :=
  (forall r t, timers w !! r = Some t -> (r < nextRun w)%nat)
  /\ Forall (fun o => (run_of o < nextRun w)%nat) (trace w)
  /\ forall r,
       run_shape (frame <$> timers w !! r)
         (published_by r (trace w)) (called_by r (trace w))
       /\ (is_Some (timers w !! r) ->
           Forall (fun o => ends r o = false) (trace w)).

(** With a stepper that counts: the iteration of a parked run is the
    number of steps it has made. *)
Definition counted (w : World) : Prop :=
  forall r,
    let n := Z.of_nat (length (called_by r (trace w))) in
    n <= Z.max 1 MAX_ITERATIONS
    /\ match frame <$> timers w !! r with
       | Some (AwaitSettle s) => iteration s = 0
       | Some (AwaitStep s) => iteration s = n
       | None => True
       end.

(** No run is waiting for its settle delay. *)
Definition all_looping (w : World) : Prop :=
  forall r t, timers w !! r = Some t -> exists s, frame t = AwaitStep s.

(** The goals [initializeAgentState] was called with, newest first. *)
Fixpoint goals_of (tr : list Obs) : list jsstring :=
  match tr with
  | [] => []
  | Initialized _ g :: tr' => g :: goals_of tr'
  | _ :: tr' => goals_of tr'
  end.

(** The goal run [r] was started with. *)
Fixpoint goal_of_run (r : nat) (tr : list Obs) : option jsstring :=
  match tr with
  | [] => None
  | Initialized r' g :: tr' =>
      if decide (r' = r) then Some g else goal_of_run r tr'
  | _ :: tr' => goal_of_run r tr'
  end.

(** Each state of the list is what [stepAgent] returned on the one before
    it. *)
Fixpoint chained (l : list AgentState) : Prop :=
  match l with
  | s :: l' =>
      match l' with
      | s' :: _ => stepAgent s = Normal s' /\ chained l'
      | [] => True
      end
  | [] => True
  end.

(** Whether a run has thrown. *)
Definition thrown (tr : list Obs) : Prop :=
  exists r e, Rejected r e ∈ tr.

(** Where the publications of run [r] come from: each one is the step of
    the one before, and the first one is the initial state of the goal the
    run was started with. *)
Definition run_origin (w : World) (r : nat) : Prop :=
  chained (published_by r (trace w))
  /\ match goal_of_run r (trace w) with
     | Some g =>
         head (published_by r (trace w)) = Some (initializeAgentState g)
     | None => published_by r (trace w) = []
     end.

End Controller.

(** Splits [exec ev w = Some w'] into the paths through the handlers. *)
Ltac exec_paths Hex :=
  match type of Hex with
  | exec ?ev ?w = Some _ =>
      destruct ev; simpl in Hex;
      unfold fire, handleSubmit, startAgent in Hex; simpl in Hex;
      try match type of Hex with
        | context [mbind _ ?o] =>
            destruct o as [[[?|?] ?]|] eqn:?; simpl in Hex
        end;
      repeat match type of Hex with
        | context [if ?b then _ else _] => destruct b eqn:?; simpl in Hex
        | context [match stepAgent ?s with _ => _ end] =>
            destruct (stepAgent s) eqn:?; simpl in Hex
        end;
      try discriminate Hex;
      unfold loop_head in Hex; simpl in Hex;
      repeat match type of Hex with
        | context [if ?b then _ else _] => destruct b eqn:?; simpl in Hex
        end;
      try discriminate Hex;
      injection Hex as <-
  end.

End Home.

(** ** The panels

    What the page renders from a state: the task cards, the log articles
    and the outcome banner, with the captions that count them.  Text that
    the page formats from numbers is left out. *)

Module Panels.

Inductive Panel (A : Type) :=
  | EmptyState (message : string)
  | Items (items : list A).
Arguments EmptyState {A} message.
Arguments Items {A} items.

Record LogArticle := {
  article_key : jsstring;
  article_class : Format.Style;
  article_label : option string;
  article_message : jsstring;
  article_time : Z
}.

Definition logArticle (log : AgentLog) : LogArticle :=
  {| article_key := log_id log;
     article_class := Format.topicClass (topic_tag (topic log));
     article_label := Format.topicLabels !! topic_tag (topic log);
     article_message := message log;
     article_time := timestamp log |}.

(** The feed of the execution log and its caption. *)
Definition logFeed (orderedLogs : list AgentLog) : Panel LogArticle :=
  if (length orderedLogs =? 0)%nat
  then EmptyState "Actions and reflections will appear here."
  else Items (logArticle <$> orderedLogs).

Definition logCaption (orderedLogs : list AgentLog) : nat :=
  length orderedLogs.

Record TaskCard := {
  card_key : jsstring;
  card_title : jsstring;
  card_detail : jsstring;
  card_class : Format.Style;
  card_label : option string;
  card_insights : option (list jsstring)   (* [None]: no list rendered *)
}.

Definition taskCard (task : AgentTask) : TaskCard :=
  {| card_key := task_id task;
     card_title := title task;
     card_detail := detail task;
     card_class := Format.taskStatusClass (status_tag (status task));
     card_label := Format.statusLabels !! status_tag (status task);
     card_insights :=
       if (0 <? length (insights task))%nat then Some (insights task)
       else None |}.

Definition taskList (agentState : option AgentState) : Panel TaskCard :=
  match agentState with
  | Some st =>
      if (0 <? length (tasks st))%nat then Items (taskCard <$> tasks st)
      else EmptyState "Provide a goal to initialize the agent."
  | None => EmptyState "Provide a goal to initialize the agent."
  end.

Definition taskCaption (agentState : option AgentState) : nat :=
  match agentState with
  | Some st => length (tasks st)
  | None => 0%nat
  end.

(** The tag of an assumption: its statement and the class of its
    confidence. *)
Definition assumptionTags (agentState : option AgentState)
  : option (list (jsstring * Format.Style)) :=
  match agentState with
  | Some st =>
      Some ((fun a => (statement a,
                       Format.confidenceClass
                         (confidence_tag (confidence a))))
              <$> assumptions st)
  | None => None
  end.

(** The outcome banner: its heading and its text. *)
Definition outcome (agentState : option AgentState)
  : option (string * jsstring) :=
  match agentState with
  | Some st =>
      match resultSummary st with
      | Some text =>
          if truthy text
          then Some (if isComplete st then "Outcome"
                     else "Current Status", text)
          else None
      | None => None
      end
  | None => None
  end.

End Panels.

(** ** Sample agent libraries

    Small instances of the interface, used to run the controller on concrete
    inputs. *)

Module Sample.

Definition no_metrics : AgentMetrics :=
  {| completionRate := 0; momentum := 0; blockedCount := 0; focus := [] |}.

Definition state_at (g : jsstring) (i : Z) (done : bool) : AgentState :=
  {| goal := g; iteration := i; tasks := []; assumptions := []; logs := [];
     metrics := no_metrics; isComplete := done; isStalled := false;
     resultSummary := None |}.

Definition bump (s : AgentState) : AgentState :=
  state_at (goal s) (iteration s + 1) (isComplete s).

(** Counts iterations and never completes or stalls; ceiling at 12. *)
Definition counting : AgentLib :=
  {| Exn := Empty_set;
     initializeAgentState g := state_at g 0 false;
     stepAgent s := Normal (bump s);
     MAX_ITERATIONS := 12 |}.

(** Starts from a state that is already complete. *)
Definition finished : AgentLib :=
  {| Exn := Empty_set;
     initializeAgentState g := state_at g 0 true;
     stepAgent s := Normal (bump s);
     MAX_ITERATIONS := 12 |}.

(** Throws at the second step. *)
Definition faulty : AgentLib :=
  {| Exn := string;
     initializeAgentState g := state_at g 0 false;
     stepAgent s :=
       if iteration s =? 1 then Throw "step failed" else Normal (bump s);
     MAX_ITERATIONS := 12 |}.

Definition log_at (t : Z) : AgentLog :=
  {| log_id := []; topic := analysis; message := []; timestamp := t |}.

(** A state whose logs arrived out of timestamp order. *)
Definition logged : AgentState :=
  {| goal := []; iteration := 1; tasks := []; assumptions := [];
     logs := [log_at 30; log_at 20; log_at 10; log_at 20];
     metrics := no_metrics; isComplete := false; isStalled := false;
     resultSummary := None |}.

Definition ship : jsstring := js_of_string "Ship feature X".

(** Scenarios: what the user and the timers do, with the waits in ms. *)

(** Launch with the goal the page starts with and let one step happen. *)
Definition launch_one_step : list Home.Event :=
  [Home.Submit; Home.Elapse 150; Home.Timer 0;
   Home.Elapse 650; Home.Timer 0].

(** The same, up to the moment the second step is due. *)
Definition launch_two_delays : list Home.Event :=
  launch_one_step ++ [Home.Elapse 650].

(** Launch at 0 ms; the loop is entered at 150 ms; stop is clicked at
    200 ms, during the first step delay. *)
Definition before_stop : list Home.Event :=
  [Home.Submit; Home.Elapse 150; Home.Timer 0; Home.Elapse 50;
   Home.ClickStop].

(** Launch again at 500 ms; the second run enters the loop at 650 ms; the
    step delay of the first run ends at 800 ms, that of the second at
    1300 ms, the next one of the first at 1450 ms. *)
Definition after_stop : list Home.Event :=
  [Home.Elapse 300; Home.Submit; Home.Elapse 150; Home.Timer 1;
   Home.Elapse 150; Home.Timer 0; Home.Elapse 500; Home.Timer 1;
   Home.Elapse 150; Home.Timer 0].

(** Launch and wait 50 ms: the run is in its settle delay. *)
Definition launch_and_wait : list Home.Event :=
  [Home.Submit; Home.Elapse 50].

(** Launch and go on until the second step has been tried. *)
Definition launch_until_second_step : list Home.Event :=
  launch_two_delays ++ [Home.Timer 0].

(** Launch and wait until the run is in its loop. *)
Definition launch_in_loop : list Home.Event :=
  [Home.Submit; Home.Elapse 150; Home.Timer 0].

(** The world a library is in after the events, from the first render. *)
Definition after `{lib : AgentLib} (evs : list Home.Event) : Home.World :=
  default Home.initial_world (Home.execs evs Home.initial_world).

(** A state with two tasks, two assumptions and a summary. *)
Definition planned : AgentState :=
  {| goal := ship; iteration := 2;
     tasks :=
       [ {| task_id := js_of_string "t1"; title := js_of_string "Scope";
            detail := []; status := completed;
            insights := [js_of_string "done early"] |};
         {| task_id := js_of_string "t2"; title := js_of_string "Build";
            detail := []; status := in_progress; insights := [] |} ];
     assumptions :=
       [ {| assumption_id := js_of_string "a1";
            statement := js_of_string "Scope is fixed";
            confidence := medium |} ];
     logs := [log_at 30; log_at 20; log_at 10; log_at 20];
     metrics := no_metrics; isComplete := false; isStalled := false;
     resultSummary := Some (js_of_string "Half way") |}.

(** The states the counting library goes through on the goal [ship]. *)
Definition counted_state (k : nat) : AgentState :=
  state_at ship (Z.of_nat k) false.

End Sample.

(** * Properties *)

(** ** Strings *)

Lemma trimStart_blank (s : jsstring) :
  Forall (fun c => isWhiteSpace c = true) s -> trimStart s = [].
Proof.
  induction 1 as [|c s Hc _ IH]; simpl; [done|].
  by rewrite Hc.
Qed.

Lemma trim_blank (s : jsstring) :
  Forall (fun c => isWhiteSpace c = true) s -> trim s = [].
Proof.
  intros Hs. unfold trim, trimEnd.
  by rewrite (trimStart_blank s Hs).
Qed.

(** ** Formatting helpers *)

Section FormatFacts.
Import Format.

Lemma taskStatusClass_range (tag : string) :
  is_status_style (taskStatusClass tag) = true.
Proof.
  unfold taskStatusClass.
  repeat match goal with |- context [String.eqb ?a ?b] =>
    destruct (String.eqb a b) end; reflexivity.
Qed.

Lemma topicClass_range (tag : string) :
  is_topic_style (topicClass tag) = true.
Proof.
  unfold topicClass.
  repeat match goal with |- context [String.eqb ?a ?b] =>
    destruct (String.eqb a b) end; reflexivity.
Qed.

Lemma confidenceClass_range (tag : string) :
  is_confidence_style (confidenceClass tag) = true.
Proof.
  unfold confidenceClass.
  repeat match goal with |- context [String.eqb ?a ?b] =>
    destruct (String.eqb a b) end; reflexivity.
Qed.

(** C9: on every value of the three enums the helpers and the label
    tables are defined: each task status and each topic has a label and
    its own style class, each confidence level has its own style class;
    and on any tag at all, also one outside the enum, the three class
    helpers fall through to a class of their own family. *)
Theorem formatting_helpers_total :
  (forall s : AgentTaskStatus,
      is_Some (statusLabels !! status_tag s)
      /\ taskStatusClass (status_tag s) = status_style s)
  /\ (forall t : AgentTopic,
      is_Some (topicLabels !! topic_tag t)
      /\ topicClass (topic_tag t) = topic_style t)
  /\ (forall c : Confidence,
      confidenceClass (confidence_tag c) = confidence_style c)
  /\ (forall tag : string,
      is_status_style (taskStatusClass tag) = true
      /\ is_topic_style (topicClass tag) = true
      /\ is_confidence_style (confidenceClass tag) = true).
Proof.
  repeat split.
  - destruct s; vm_compute; eauto.
  - by destruct s.
  - destruct t; vm_compute; eauto.
  - by destruct t.
  - by destruct c.
  - apply taskStatusClass_range.
  - apply topicClass_range.
  - apply confidenceClass_range.
Qed.
End FormatFacts.

(** ** The log feed *)

Section FeedFacts.
Import Feed.

Lemma sort_insert_perm {A} (f : A -> A -> Z) (x : A) (l : list A) :
  sort_insert f x l ≡ₚ x :: l.
Proof.
  induction l as [|y l IH]; simpl; [done|].
  destruct (0 <? f x y); [|done].
  rewrite IH. apply Permutation_swap.
Qed.

Lemma Array_sort_perm {A} (f : A -> A -> Z) (l : list A) :
  Array_sort f l ≡ₚ l.
Proof.
  induction l as [|x l IH]; simpl; [done|].
  by rewrite sort_insert_perm, IH.
Qed.

Lemma sort_insert_hd (x a : AgentLog) (l : list AgentLog) :
  ts_le a x -> HdRel ts_le a l -> HdRel ts_le a (sort_insert byTimestamp x l).
Proof.
  intros Hax Hal. destruct l as [|y l]; simpl; [by constructor|].
  destruct (0 <? byTimestamp x y); constructor; [|done].
  by inversion Hal.
Qed.

Lemma sort_insert_sorted (x : AgentLog) (l : list AgentLog) :
  Sorted ts_le l -> Sorted ts_le (sort_insert byTimestamp x l).
Proof.
  induction 1 as [|y l Hl IH Hy]; simpl; [by repeat constructor|].
  destruct (0 <? byTimestamp x y) eqn:Hcmp.
  - constructor; [done|].
    apply sort_insert_hd; [|done].
    apply Z.ltb_lt in Hcmp. unfold byTimestamp in Hcmp. unfold ts_le. lia.
  - constructor; [by constructor|]. constructor.
    apply Z.ltb_ge in Hcmp. unfold byTimestamp in Hcmp. unfold ts_le. lia.
Qed.

Lemma Array_sort_sorted (l : list AgentLog) :
  Sorted ts_le (Array_sort byTimestamp l).
Proof.
  induction l as [|x l IH]; simpl; [constructor|].
  by apply sort_insert_sorted.
Qed.

(** The sort is stable: entries with the same timestamp keep the order
    they had. *)
Lemma sort_insert_stable (t : Z) (x : AgentLog) (l : list AgentLog) :
  Sorted ts_le l ->
  filter (fun a => timestamp a = t) (sort_insert byTimestamp x l)
  = filter (fun a => timestamp a = t) (x :: l).
Proof.
  induction 1 as [|y l Hl IH Hy]; simpl; [done|].
  destruct (0 <? byTimestamp x y) eqn:Hcmp; [|done].
  apply Z.ltb_lt in Hcmp. unfold byTimestamp in Hcmp.
  rewrite !filter_cons in *.
  destruct (decide (timestamp y = t)) as [Hy'|Hy'];
    destruct (decide (timestamp x = t)) as [Hx'|Hx']; try lia;
    rewrite IH; try done.
Qed.

Lemma Array_sort_stable (t : Z) (l : list AgentLog) :
  filter (fun a => timestamp a = t) (Array_sort byTimestamp l)
  = filter (fun a => timestamp a = t) l.
Proof.
  induction l as [|x l IH]; simpl; [done|].
  rewrite sort_insert_stable by apply Array_sort_sorted.
  by rewrite !filter_cons, IH.
Qed.

Lemma fresh_unused (h : heap) : h !! fresh (dom h) = None.
Proof. apply not_elem_of_dom, is_fresh. Qed.

(** C6: for a state whose log array is stored at [r], [orderedLogs]
    returns a new array [r'] holding a permutation of the logs in
    non-decreasing timestamp order, whatever order they are stored in; the
    state's own array, and every other array of the store, is left as it
    was.  For an absent state it returns a new empty array. *)
Theorem orderedLogs_sorted_copy (st : AgentState) (r : loc) (h : heap) :
  h !! r = Some (logs st) ->
  (exists r' h' out,
      orderedLogs (Some r) h = Some (r', h')
      /\ h' !! r' = Some out
      /\ out ≡ₚ logs st
      /\ Sorted ts_le out
      /\ r' <> r
      /\ h' !! r = Some (logs st)
      /\ forall a, a <> r' -> h' !! a = h !! a)
  /\ (exists r0 h0,
      orderedLogs None h = Some (r0, h0)
      /\ h0 !! r0 = Some []
      /\ forall a, a <> r0 -> h0 !! a = h !! a).
Proof.
  intros Hr. split.
  - set (r' := fresh (dom h)).
    assert (Hne : r' <> r).
    { intros Heq. pose proof (fresh_unused h) as Hf.
      fold r' in Hf. congruence. }
    exists r', (<[r' := Array_sort byTimestamp (logs st)]> h),
      (Array_sort byTimestamp (logs st)).
    split; [|split; [|split; [|split; [|split; [|split]]]]].
    + unfold orderedLogs, spread, array_literal, sort_in_place.
      rewrite Hr. simpl. fold r'.
      rewrite lookup_insert_eq. simpl.
      by rewrite insert_insert_eq.
    + apply lookup_insert_eq.
    + apply Array_sort_perm.
    + apply Array_sort_sorted.
    + done.
    + by rewrite lookup_insert_ne.
    + intros a Ha. by rewrite lookup_insert_ne.
  - exists (fresh (dom h)), (<[fresh (dom h) := []]> h).
    split; [done|]. split; [apply lookup_insert_eq|].
    intros a Ha. by rewrite lookup_insert_ne.
Qed.

(** The feed of a state whose logs are stored out of order. *)
Lemma orderedLogs_sorted_copy_witness :
  let h : heap := {[ 1%positive := logs Sample.logged ]} in
  (exists r' h' out,
      orderedLogs (Some 1%positive) h = Some (r', h')
      /\ h' !! r' = Some out
      /\ out ≡ₚ logs Sample.logged
      /\ Sorted ts_le out
      /\ r' <> 1%positive
      /\ h' !! 1%positive = Some (logs Sample.logged)
      /\ forall a, a <> r' -> h' !! a = h !! a)
  /\ (exists r0 h0,
      orderedLogs None h = Some (r0, h0)
      /\ h0 !! r0 = Some []
      /\ forall a, a <> r0 -> h0 !! a = h !! a).
Proof.
  intros h.
  apply (orderedLogs_sorted_copy Sample.logged 1%positive h).
  vm_compute. reflexivity.
Defined.

Example orderedLogs_logged :
  exists r' h',
    orderedLogs (Some 1%positive) {[ 1%positive := logs Sample.logged ]}
    = Some (r', h')
    /\ (map timestamp <$> h' !! r') = Some [10; 20; 20; 30]
    /\ (map timestamp <$> h' !! 1%positive) = Some [30; 20; 10; 20].
Proof. eexists _, _. vm_compute. eauto. Qed.
End FeedFacts.

(** ** The run controller *)

Lemma trimStart_nonblank (s : jsstring) :
  Exists (fun c => isWhiteSpace c = false) s ->
  Exists (fun c => isWhiteSpace c = false) (trimStart s).
Proof.
  induction 1 as [c s Hc|c s _ IH]; simpl.
  - rewrite Hc. by constructor.
  - destruct (isWhiteSpace c) eqn:Hc; [done|]. by constructor.
Qed.

Lemma trim_nonblank (s : jsstring) :
  Exists (fun c => isWhiteSpace c = false) s -> truthy (trim s) = true.
Proof.
  intros Hs. unfold trim, trimEnd.
  apply trimStart_nonblank in Hs.
  assert (Hr : Exists (fun c => isWhiteSpace c = false)
                 (rev (trimStart (rev (trimStart s))))).
  { apply Exists_rev, trimStart_nonblank, Exists_rev. done. }
  by destruct Hr.
Qed.

Section ControllerFacts.
Context `{lib : AgentLib}.
Import Home.

Implicit Types (w : World) (r : nat) (s : AgentState).

(** C10: [stopAgent] called once or any number of times more leaves the
    same world: both flags are false, and the goal text, the agent state,
    the pending timers, the clock and the trace are those from before the
    first call. *)
Theorem stopAgent_idempotent w (n : nat) :
  Nat.iter (S n) stopAgent w = stopAgent w
  /\ loopRef (hooks (stopAgent w)) = false
  /\ isRunning (hooks (stopAgent w)) = false
  /\ goalInput (hooks (stopAgent w)) = goalInput (hooks w)
  /\ agentState (hooks (stopAgent w)) = agentState (hooks w)
  /\ timers (stopAgent w) = timers w
  /\ now (stopAgent w) = now w
  /\ nextRun (stopAgent w) = nextRun w
  /\ trace (stopAgent w) = trace w.
Proof.
  split; [|by repeat split].
  induction n as [|n IH]; [done|].
  change (Nat.iter (S (S n)) stopAgent w)
    with (stopAgent (Nat.iter (S n) stopAgent w)).
  by rewrite IH.
Qed.

(** The controls follow the flag: in every state of the page the textarea
    and the submit button are disabled exactly when [isRunning] is set and
    the stop button exactly when it is clear; accordingly a submit or an
    edit gets through only when the flag is clear and a click on stop only
    when it is set. *)
Lemma controls_follow_isRunning w (text : jsstring) :
  textareaDisabled (render (hooks w)) = isRunning (hooks w)
  /\ submitDisabled (render (hooks w)) = isRunning (hooks w)
  /\ stopDisabled (render (hooks w)) = negb (isRunning (hooks w))
  /\ exec Submit w
     = (if isRunning (hooks w) then None else Some (handleSubmit w))
  /\ exec (Change text) w
     = (if isRunning (hooks w) then None else Some (setGoalInput text w))
  /\ exec ClickStop w
     = (if isRunning (hooks w) then Some (stopAgent w) else None).
Proof.
  repeat split; simpl; by destruct (isRunning (hooks w)).
Qed.

Lemma startAgent_blank (g : jsstring) w :
  Forall (fun c => isWhiteSpace c = true) g -> startAgent g w = w.
Proof.
  intros Hg. unfold startAgent. by rewrite (trim_blank g Hg).
Qed.

(** The two guards of a submission: while the goal text is empty or all
    whitespace, or while [isRunning] is set, it changes nothing: the hooks,
    the timers and the trace (no call of [initializeAgentState], no
    published state) are as before; and [startAgent] itself returns at once
    on such a goal. *)
Lemma blank_or_running_submit_is_noop w :
  Forall (fun c => isWhiteSpace c = true) (goalInput (hooks w))
  \/ isRunning (hooks w) = true ->
  handleSubmit w = w
  /\ (forall g, Forall (fun c => isWhiteSpace c = true) g ->
                startAgent g w = w).
Proof.
  intros H. split; [|intros g; apply startAgent_blank].
  unfold handleSubmit. destruct H as [Hg|Hrun].
  - rewrite (trim_blank _ Hg). simpl.
    by destruct (isRunning (hooks w)).
  - by rewrite Hrun.
Qed.

End ControllerFacts.

(** ** Runs under arbitrary interleavings *)

Section RunFacts.
Context `{lib : AgentLib}.
Import Home.

Implicit Types (w : World) (r : nat) (s : AgentState) (tr : list Obs).

Lemma startAgent_Move (g : jsstring) w : Move w (startAgent g w).
Proof.
  unfold startAgent. destruct (truthy (trim g)) eqn:Hg; simpl.
  - by eapply StartMove.
  - by apply QuietMove.
Qed.

Lemma resume_Move r (t : Suspended) w :
  timers w !! r = Some t ->
  Move w (resume r (frame t)
            {| hooks := hooks w; timers := delete r (timers w);
               now := now w; nextRun := nextRun w; trace := trace w |}).
Proof.
  intros Hp. destruct t as [[s|s] d]; simpl.
  - unfold loop_head. simpl.
    eapply SettleMove; [exact Hp| |done|done].
    simpl. by rewrite insert_delete_eq.
  - destruct (stepAgent s) as [s'|e] eqn:Hs; simpl.
    + destruct (flagged s') eqn:Hf; [|destruct (at_ceiling s') eqn:Hc].
      * eapply LastMove; [exact Hp|exact Hs| |done|done|done].
        left. unfold stopped. by rewrite Hf.
      * eapply LastMove; [exact Hp|exact Hs| |done|done|done].
        left. unfold stopped. by rewrite Hc, orb_true_r.
      * unfold loop_head. simpl. destruct (loopRef (hooks w)) eqn:Hl.
        -- eapply StepMove; [exact Hp|exact Hs| | |done|done].
           ++ unfold stopped. by rewrite Hf, Hc.
           ++ simpl. by rewrite insert_delete_eq.
        -- eapply LastMove; [exact Hp|exact Hs| |done|done|done].
           by right.
    + by eapply ThrowMove.
Qed.

Lemma exec_Move (ev : Event) w w' : exec ev w = Some w' -> Move w w'.
Proof.
  destruct ev as [ms|text| | |r]; simpl.
  - destruct (0 <=? ms); [|done]. intros [= <-]. by apply QuietMove.
  - destruct (isRunning (hooks w)); [done|]. intros [= <-].
    by apply QuietMove.
  - destruct (isRunning (hooks w)) eqn:Hrun; [done|]. intros [= <-].
    unfold handleSubmit. rewrite Hrun.
    destruct (truthy (trim (goalInput (hooks w)))); simpl.
    + apply startAgent_Move.
    + by apply QuietMove.
  - destruct (isRunning (hooks w)); [|done]. intros [= <-].
    by apply QuietMove.
  - unfold fire. destruct (timers w !! r) as [t|] eqn:Hp; [|done]. simpl.
    destruct (due t <=? now w); [|done]. intros [= <-].
    by apply resume_Move.
Qed.

(** *** The trace of one run *)

Lemma published_by_app r tr1 tr2 :
  published_by r (tr1 ++ tr2) = published_by r tr2 ++ published_by r tr1.
Proof.
  induction tr1 as [|o tr1 IH]; simpl; [by rewrite app_nil_r|].
  destruct o; try done. case_decide; [|done].
  by rewrite IH, app_assoc.
Qed.

Lemma called_by_app r tr1 tr2 :
  called_by r (tr1 ++ tr2) = called_by r tr2 ++ called_by r tr1.
Proof.
  induction tr1 as [|o tr1 IH]; simpl; [by rewrite app_nil_r|].
  destruct o; try done. case_decide; [|done].
  by rewrite IH, app_assoc.
Qed.

Lemma silent_run r tr :
  Forall (fun o => run_of o <> r) tr ->
  published_by r tr = [] /\ called_by r tr = []
  /\ Forall (fun o => ends r o = false) tr.
Proof.
  induction 1 as [|o tr Ho _ (IHp & IHc & IHe)]; [done|].
  repeat split.
  - destruct o; simpl in *; try done. by rewrite decide_False.
  - destruct o; simpl in *; try done. by rewrite decide_False.
  - constructor; [|done].
    destruct o; simpl in *; try done; by rewrite bool_decide_eq_false.
Qed.

Lemma unborn_run w r :
  well_formed w -> (nextRun w <= r)%nat ->
  published_by r (trace w) = [] /\ called_by r (trace w) = []
  /\ Forall (fun o => ends r o = false) (trace w)
  /\ timers w !! r = None.
Proof.
  intros (Hkeys & Hobs & _) Hr.
  destruct (silent_run r (trace w)) as (Hp & Hc & He).
  { eapply Forall_impl; [exact Hobs|]. simpl. lia. }
  repeat split; try done.
  destruct (timers w !! r) as [t|] eqn:Ht; [|done].
  apply Hkeys in Ht. lia.
Qed.

Lemma tail_snoc_unstopped (C : list AgentState) s :
  Forall (fun s => stopped s = false) (tail C) ->
  (C <> [] -> stopped s = false) ->
  Forall (fun s => stopped s = false) (tail (C ++ [s])).
Proof.
  intros HC Hs. destruct C as [|c C]; simpl in *; [done|].
  apply Forall_app. split; [done|]. constructor; [|done]. by apply Hs.
Qed.
(** *** Invariants of the reachable worlds *)

Lemma well_formed_initial : well_formed initial_world.
Proof.
  split; [|split].
  - intros r t Ht. simpl in Ht. by rewrite lookup_empty in Ht.
  - constructor.
  - intros r. split.
    + simpl. rewrite lookup_empty. simpl. split; [constructor|by right].
    + simpl. rewrite lookup_empty. by intros [? ?].
Qed.

Lemma well_formed_Move w w' : well_formed w -> Move w w' -> well_formed w'.
Proof.
  intros Hwf HM. pose proof Hwf as (Hkeys & Hobs & Hruns).
  destruct HM.
  - split; [|split]; rewrite ?Ht, ?Hn, ?Htr; done.
  - (* start *)
    destruct (unborn_run w (nextRun w) Hwf) as (HP & HC & HE & HT); [lia|].
    split; [|split].
    + intros r t. rewrite Ht, Hn. intros Hl.
      apply lookup_insert_Some in Hl as [[<- _]|[_ Hl]]; [lia|].
      apply Hkeys in Hl. lia.
    + rewrite Htr, Hn. repeat constructor.
      eapply Forall_impl; [exact Hobs|]. simpl. lia.
    + intros r. rewrite Ht, Htr. destruct (decide (r = nextRun w)) as [->|Hne].
      * rewrite lookup_insert_eq. simpl. rewrite decide_True by done.
        rewrite HP, HC. simpl. split; [by split|].
        intros _. repeat constructor. done.
      * rewrite lookup_insert_ne by done. simpl.
        rewrite decide_False by done.
        destruct (Hruns r) as [Hsh Hend]. split; [done|].
        intros Hpend. repeat constructor. by apply Hend.
  - (* settle *)
    pose proof (Hkeys _ _ Hp) as Hlt.
    split; [|split].
    + intros r1 t. rewrite Ht, Hn. intros Hl.
      apply lookup_insert_Some in Hl as [[<- _]|[_ Hl]]; [done|].
      by apply Hkeys in Hl.
    + by rewrite Htr, Hn.
    + intros r1. rewrite Ht, Htr. destruct (Hruns r1) as [Hsh Hend].
      destruct (decide (r1 = r)) as [->|Hne].
      * rewrite lookup_insert_eq. rewrite Hp in Hsh, Hend. simpl in *.
        destruct Hsh as (Htl & -> & ->). split; [by split|].
        intros _. apply Hend. eauto.
      * by rewrite lookup_insert_ne.
  - (* step *)
    pose proof (Hkeys _ _ Hp) as Hlt.
    split; [|split].
    + intros r1 t. rewrite Ht, Hn. intros Hl.
      apply lookup_insert_Some in Hl as [[<- _]|[_ Hl]]; [done|].
      by apply Hkeys in Hl.
    + rewrite Htr, Hn. by repeat constructor.
    + intros r1. rewrite Ht, Htr. destruct (Hruns r1) as [Hsh Hend].
      destruct (decide (r1 = r)) as [->|Hne].
      * rewrite lookup_insert_eq. rewrite Hp in Hsh, Hend. simpl in *.
        rewrite !decide_True by done.
        destruct Hsh as (Htl & HP & Hgo'). split.
        -- split; [by apply tail_snoc_unstopped|]. by rewrite HP.
        -- intros _. repeat constructor. apply Hend. eauto.
      * rewrite lookup_insert_ne by done. simpl.
        rewrite !decide_False by done. split; [done|].
        intros Hpend. repeat constructor. by apply Hend.
  - (* last *)
    pose proof (Hkeys _ _ Hp) as Hlt.
    split; [|split].
    + intros r1 t. rewrite Ht, Hn. intros Hl.
      apply lookup_delete_Some in Hl as [_ Hl]. by apply Hkeys in Hl.
    + rewrite Htr, Hn. by repeat constructor.
    + intros r1. rewrite Ht, Htr. destruct (Hruns r1) as [Hsh Hend].
      destruct (decide (r1 = r)) as [->|Hne].
      * rewrite lookup_delete_eq. rewrite Hp in Hsh, Hend. simpl in *.
        rewrite !decide_True by done.
        destruct Hsh as (Htl & HP & Hgo'). split.
        -- split; [by apply tail_snoc_unstopped|]. left. exists s'.
           by rewrite HP.
        -- by intros [? ?].
      * rewrite lookup_delete_ne by done. simpl.
        rewrite !decide_False by done. split; [done|].
        intros Hpend. constructor.
        { simpl. by rewrite bool_decide_eq_false. }
        repeat constructor. by apply Hend.
  - (* throw *)
    pose proof (Hkeys _ _ Hp) as Hlt.
    split; [|split].
    + intros r1 t. rewrite Ht, Hn. intros Hl.
      apply lookup_delete_Some in Hl as [_ Hl]. by apply Hkeys in Hl.
    + rewrite Htr, Hn. by repeat constructor.
    + intros r1. rewrite Ht, Htr. destruct (Hruns r1) as [Hsh Hend].
      destruct (decide (r1 = r)) as [->|Hne].
      * rewrite lookup_delete_eq. rewrite Hp in Hsh, Hend. simpl in *.
        rewrite !decide_True by done.
        destruct Hsh as (Htl & HP & Hgo'). split.
        -- split; [by apply tail_snoc_unstopped|]. by right.
        -- by intros [? ?].
      * rewrite lookup_delete_ne by done. simpl.
        rewrite !decide_False by done. split; [done|].
        intros Hpend. constructor.
        { simpl. by rewrite bool_decide_eq_false. }
        repeat constructor. by apply Hend.
Qed.

Lemma reachable_well_formed w : reachable w -> well_formed w.
Proof.
  induction 1 as [|ev w w' _ IH Hex]; [apply well_formed_initial|].
  eapply well_formed_Move; [exact IH|]. by eapply exec_Move.
Qed.
Lemma execs_reachable (evs : list Event) w w' :
  reachable w -> execs evs w = Some w' -> reachable w'.
Proof.
  revert w. induction evs as [|ev evs IH]; simpl; intros w Hw.
  - by intros [= <-].
  - destruct (exec ev w) as [w1|] eqn:Hex; [|done]. simpl.
    apply IH. by eapply reach_exec.
Qed.

Lemma run_shape_prefix (parked : option Frame) (P C : list AgentState) :
  run_shape parked P C -> C `prefix_of` P.
Proof.
  intros [_ Hsh]. destruct parked as [[s|s]|].
  - destruct Hsh as [-> ->]. apply prefix_nil.
  - destruct Hsh as [-> _]. by apply prefix_app_r.
  - destruct Hsh as [[s ->]| ->]; [by apply prefix_app_r|done].
Qed.

Lemma run_shape_middle (parked : option Frame) (P C : list AgentState)
      (i : nat) s :
  run_shape parked P C ->
  (0 < i)%nat -> (S i < length P)%nat -> P !! i = Some s ->
  stopped s = false.
Proof.
  intros [Htl Hsh] Hi Hlen HPi.
  assert (HC : C !! i = Some s).
  { destruct parked as [[s0|s0]|].
    - destruct Hsh as [-> ->]. simpl in Hlen. lia.
    - destruct Hsh as [-> _]. rewrite length_app in Hlen. simpl in Hlen.
      rewrite lookup_app_l in HPi by lia. done.
    - destruct Hsh as [[s0 ->]| ->]; [|done].
      rewrite length_app in Hlen. simpl in Hlen.
      rewrite lookup_app_l in HPi by lia. done. }
  destruct i as [|i]; [lia|]. destruct C as [|c C]; [done|].
  simpl in *. rewrite Forall_forall in Htl. apply Htl.
  by eapply list_elem_of_lookup_2.
Qed.

(** C3 (amended): in every reachable world and for every run, the arguments
    the run gave to [stepAgent] are, in order, states it had published; all
    of them except the first one, the initial state, satisfy no stop
    predicate; of the published states only the first and the last one can
    satisfy one; and once a state published after a step satisfies one, the
    run is parked no more. *)
Theorem only_first_and_last_may_be_stopped w r :
  reachable w ->
  called_by r (trace w) `prefix_of` published_by r (trace w)
  /\ Forall (fun s => stopped s = false) (tail (called_by r (trace w)))
  /\ (forall (i : nat) s,
        (0 < i)%nat -> (S i < length (published_by r (trace w)))%nat ->
        published_by r (trace w) !! i = Some s -> stopped s = false)
  /\ (forall s,
        (2 <= length (published_by r (trace w)))%nat ->
        last (published_by r (trace w)) = Some s -> stopped s = true ->
        timers w !! r = None).
Proof.
  intros Hw. apply reachable_well_formed in Hw as (_ & _ & Hruns).
  destruct (Hruns r) as [Hsh _].
  split; [by eapply run_shape_prefix|].
  split; [apply Hsh|]. split.
  - intros i s. by eapply run_shape_middle.
  - intros s Hlen Hlast Hstop. destruct Hsh as [_ Hsh].
    destruct (timers w !! r) as [[[s0|s0] d]|]; simpl in *; [| |done].
    + destruct Hsh as [HP _]. rewrite HP in Hlen. simpl in Hlen. lia.
    + destruct Hsh as [HP Hgo]. rewrite HP in Hlast, Hlen.
      rewrite last_snoc in Hlast. injection Hlast as <-.
      rewrite Hgo in Hstop; [done|].
      intros HC. rewrite HC in Hlen. simpl in Hlen. lia.
Qed.

Section Counting.
Hypothesis init_zero : forall g, iteration (initializeAgentState g) = 0.
Hypothesis step_succ :
  forall s s', stepAgent s = Normal s' -> iteration s' = iteration s + 1.

Lemma counted_initial : counted initial_world.
Proof. intros r. simpl. rewrite lookup_empty. simpl. split; [lia|done]. Qed.

Lemma unstopped_below s : stopped s = false -> iteration s < MAX_ITERATIONS.
Proof.
  unfold stopped, at_ceiling. intros H.
  apply orb_false_iff in H as [_ H]. by apply Z.leb_gt in H.
Qed.

Lemma counted_Move w w' :
  well_formed w -> counted w -> Move w w' -> counted w'.
Proof.
  intros Hwf Hcnt HM. pose proof Hwf as (Hkeys & Hobs & Hruns).
  destruct HM; intros r1; specialize (Hcnt r1) as Hr1;
    destruct (Hruns r1) as [[Htl Hsh] _]; simpl in *.
  - by rewrite Ht, Htr.
  - rewrite Ht, Htr. simpl.
    destruct (decide (r1 = nextRun w)) as [->|Hne].
    + rewrite lookup_insert_eq. simpl. split; [apply Hr1|apply init_zero].
    + by rewrite lookup_insert_ne.
  - rewrite Ht, Htr. destruct (decide (r1 = r)) as [->|Hne].
    + rewrite lookup_insert_eq. rewrite Hp in Hr1, Hsh. simpl in *.
      destruct Hsh as [_ HC]. rewrite HC in *. simpl. split; [lia|].
      apply Hr1.
    + by rewrite lookup_insert_ne.
  - rewrite Ht, Htr. simpl. destruct (decide (r1 = r)) as [->|Hne].
    + rewrite lookup_insert_eq. rewrite Hp in Hr1, Hsh. simpl in *.
      rewrite decide_True by done. rewrite length_app. simpl.
      apply step_succ in Hs. apply unstopped_below in Hgo. lia.
    + rewrite lookup_insert_ne by done. by rewrite decide_False.
  - rewrite Ht, Htr. simpl. destruct (decide (r1 = r)) as [->|Hne].
    + rewrite lookup_delete_eq. rewrite Hp in Hr1, Hsh. simpl in *.
      rewrite decide_True by done. rewrite length_app. simpl.
      split; [|done].
      destruct Hsh as [_ Hgo]. destruct (called_by r (trace w)) as [|c C].
      * simpl. lia.
      * assert (stopped s = false) as Hb by by apply Hgo.
        apply unstopped_below in Hb. lia.
    + rewrite lookup_delete_ne by done. by rewrite decide_False.
  - rewrite Ht, Htr. simpl. destruct (decide (r1 = r)) as [->|Hne].
    + rewrite lookup_delete_eq. rewrite Hp in Hr1, Hsh. simpl in *.
      rewrite decide_True by done. rewrite length_app. simpl.
      split; [|done].
      destruct Hsh as [_ Hgo]. destruct (called_by r (trace w)) as [|c C].
      * simpl. lia.
      * assert (stopped s = false) as Hb by by apply Hgo.
        apply unstopped_below in Hb. lia.
    + rewrite lookup_delete_ne by done. by rewrite decide_False.
Qed.

Lemma reachable_counted w : reachable w -> counted w.
Proof.
  induction 1 as [|ev w w' Hw IH Hex]; [apply counted_initial|].
  eapply counted_Move; [|exact IH|by eapply exec_Move].
  by apply reachable_well_formed.
Qed.
(** With a stepper that adds one to [iteration] and an initial state at
    iteration 0, in every reachable world every run has called [stepAgent]
    at most [max 1 MAX_ITERATIONS] times, and fewer while it is still
    parked; and a parked run whose step delay is over does make its next
    call when its timer fires.  The ceiling is tested after the step, so
    one call is made whatever the ceiling. *)
Lemma step_calls_bounded w r :
  reachable w ->
  Z.of_nat (length (called_by r (trace w))) <= Z.max 1 MAX_ITERATIONS
  /\ (is_Some (timers w !! r) ->
      Z.of_nat (length (called_by r (trace w)))
      < Z.max 1 MAX_ITERATIONS)
  /\ (forall s d,
        timers w !! r = Some {| frame := AwaitStep s; due := d |} ->
        d <= now w ->
        exists w',
          exec (Timer r) w = Some w'
          /\ length (called_by r (trace w'))
             = S (length (called_by r (trace w)))).
Proof.
  intros Hw. pose proof (reachable_counted w Hw r) as [Hle Hit].
  apply reachable_well_formed in Hw as (_ & _ & Hruns).
  destruct (Hruns r) as [[_ Hsh] _]. simpl in *.
  split; [done|]. split.
  - intros [[[s|s] d] Hp]; rewrite Hp in Hsh, Hit; simpl in *.
    + destruct Hsh as [_ ->]. simpl. lia.
    + destruct Hsh as [_ Hgo].
      destruct (called_by r (trace w)) as [|c C]; [simpl; lia|].
      assert (stopped s = false) as Hb by by apply Hgo.
      apply unstopped_below in Hb. lia.
  - intros s d Hp Hd. unfold fire. rewrite Hp. simpl.
    apply Z.leb_le in Hd. rewrite Hd. eexists. split; [done|].
    destruct (stepAgent s) as [s'|e]; simpl.
    + destruct (flagged s'); [|destruct (at_ceiling s')];
        unfold loop_head; simpl; try destruct (loopRef (hooks w));
        simpl; rewrite decide_True by done;
        rewrite length_app; simpl; lia.
    + rewrite decide_True by done. rewrite length_app. simpl. lia.
Qed.

(** The ceiling is a count of iterations: at least one. *)
Hypothesis ceiling_positive : 1 <= MAX_ITERATIONS.

(** C2: with a stepper that adds one to [iteration] at each call, an initial
    state at iteration 0 and a ceiling of at least one, in every reachable
    world, whatever the goals and whatever the user and the timers did,
    every run has called [stepAgent] at most [MAX_ITERATIONS] times,
    whether or not a state was ever complete or stalled; a run that is
    still parked has made fewer calls, and a parked run whose step delay is
    over does make its next call when its timer fires, so the run is over
    within [MAX_ITERATIONS] steps. *)
Theorem step_calls_within_ceiling w r :
  reachable w ->
  Z.of_nat (length (called_by r (trace w))) <= MAX_ITERATIONS
  /\ (is_Some (timers w !! r) ->
      Z.of_nat (length (called_by r (trace w))) < MAX_ITERATIONS)
  /\ (forall s d,
        timers w !! r = Some {| frame := AwaitStep s; due := d |} ->
        d <= now w ->
        exists w',
          exec (Timer r) w = Some w'
          /\ length (called_by r (trace w'))
             = S (length (called_by r (trace w)))).
Proof.
  intros Hw. destruct (step_calls_bounded w r Hw) as (Hle & Hlt & Hgo).
  rewrite Z.max_r in Hle, Hlt by lia.
  split; [exact Hle|]. split; [exact Hlt|exact Hgo].
Qed.
End Counting.

(** *** A run that is over *)

Lemma Move_trace w w' r :
  Move w w' ->
  exists seg,
    trace w' = seg ++ trace w
    /\ (timers w !! r = None -> (r < nextRun w)%nat ->
        Forall (fun o => run_of o <> r) seg
        /\ timers w' !! r = None /\ (r < nextRun w')%nat).
Proof.
  intros []; rewrite Ht, Hn, Htr.
  - exists []. split; [done|]. by intros.
  - eexists [_; _]. split; [done|]. intros Hnone Hlt.
    split; [repeat constructor; simpl; lia|].
    split; [|lia]. rewrite lookup_insert_ne by lia. done.
  - exists []. split; [done|]. intros Hnone Hlt.
    split; [done|]. split; [|done].
    rewrite lookup_insert_ne; [done|]. intros ->. congruence.
  - eexists [_; _]. split; [done|]. intros Hnone Hlt.
    assert (r0 <> r) by (intros ->; congruence).
    split; [by repeat constructor|]. split; [|done].
    by rewrite lookup_insert_ne.
  - eexists [_; _; _]. split; [done|]. intros Hnone Hlt.
    assert (r0 <> r) by (intros ->; congruence).
    split; [by repeat constructor|]. split; [|done].
    by rewrite lookup_delete_ne.
  - eexists [_; _]. split; [done|]. intros Hnone Hlt.
    assert (r0 <> r) by (intros ->; congruence).
    split; [by repeat constructor|]. split; [|done].
    by rewrite lookup_delete_ne.
Qed.

Lemma retired_run_is_silent (evs : list Event) w w' r :
  timers w !! r = None -> (r < nextRun w)%nat ->
  execs evs w = Some w' ->
  exists seg,
    trace w' = seg ++ trace w /\ Forall (fun o => run_of o <> r) seg.
Proof.
  revert w. induction evs as [|ev evs IH]; simpl; intros w Hnone Hlt.
  - intros [= <-]. by exists [].
  - destruct (exec ev w) as [w1|] eqn:Hex; [|done]. simpl. intros Hrest.
    apply exec_Move in Hex.
    destruct (Move_trace w w1 r Hex) as (seg1 & Htr1 & Hq).
    destruct (Hq Hnone Hlt) as (Hseg1 & Hnone1 & Hlt1).
    destruct (IH w1 Hnone1 Hlt1 Hrest) as (seg2 & Htr2 & Hseg2).
    exists (seg2 ++ seg1). split.
    + by rewrite Htr2, Htr1, app_assoc.
    + by apply Forall_app.
Qed.

(** C7: when [stepAgent] throws in an iteration of run [r], the call of
    [startAgent] ends there with the exception: nothing is published, the
    hooks (with them [isRunning] and [loopRef]) stay as they were, the run
    is parked no more, and whatever happens afterwards the run publishes
    nothing, steps nothing and never reaches the exit of its loop. *)
Theorem step_exception_propagates w r (cur : AgentState) (d : Z) (e : Exn) :
  reachable w ->
  timers w !! r = Some {| frame := AwaitStep cur; due := d |} ->
  d <= now w ->
  stepAgent cur = Throw e ->
  exists w',
    exec (Timer r) w = Some w'
    /\ trace w' = Rejected r e :: Called r cur :: trace w
    /\ hooks w' = hooks w
    /\ timers w' = delete r (timers w)
    /\ forall evs w'',
         execs evs w' = Some w'' ->
         published_by r (trace w'') = published_by r (trace w)
         /\ called_by r (trace w'') = called_by r (trace w) ++ [cur]
         /\ Exited r ∉ trace w''.
Proof.
  intros Hw Hp Hd Hs.
  apply reachable_well_formed in Hw as (Hkeys & _ & Hruns).
  destruct (Hruns r) as [_ Hend].
  set (w' := record (Rejected r e) (record (Called r cur)
               {| hooks := hooks w; timers := delete r (timers w);
                  now := now w; nextRun := nextRun w;
                  trace := trace w |})).
  exists w'. split.
  { simpl. unfold fire. rewrite Hp. simpl. apply Z.leb_le in Hd.
    rewrite Hd. simpl. by rewrite Hs. }
  do 3 (split; [done|]).
  intros evs w'' Hevs.
  destruct (retired_run_is_silent evs w' w'' r) as (seg & -> & Hseg);
    [apply lookup_delete_eq|by eapply Hkeys|done|].
  destruct (silent_run r seg Hseg) as (HP & HC & _).
  rewrite published_by_app, called_by_app, HP, HC. simpl.
  rewrite decide_True by done. rewrite !app_nil_r.
  do 2 (split; [done|]).
  rewrite elem_of_app. intros [Hin|Hin].
  - rewrite Forall_forall in Hseg. by apply Hseg in Hin.
  - apply elem_of_cons in Hin as [?|Hin]; [done|].
    apply elem_of_cons in Hin as [?|Hin]; [done|].
    assert (Hall : Forall (fun o => ends r o = false) (trace w))
      by (apply Hend; eauto).
    rewrite Forall_forall in Hall. apply Hall in Hin. simpl in Hin.
    by rewrite bool_decide_eq_false in Hin.
Qed.
(** *** One run on its own *)

Lemma execs_app (evs1 evs2 : list Event) w :
  execs (evs1 ++ evs2) w = w' ← execs evs1 w; execs evs2 w'.
Proof.
  revert w. induction evs1 as [|ev evs1 IH]; simpl; intros w; [done|].
  destruct (exec ev w); simpl; [apply IH|done].
Qed.

Lemma one_iteration w r (cur s' : AgentState) (d : Z) :
  timers w !! r = Some {| frame := AwaitStep cur; due := d |} ->
  d <= now w + 650 ->
  stepAgent cur = Normal s' ->
  exists w1 seg,
    execs [Elapse 650; Timer r] w = Some w1
    /\ trace w1 = seg ++ trace w
    /\ published_by r seg = [s']
    /\ called_by r seg = [cur]
    /\ agentState (hooks w1) = Some s'
    /\ (stopped s' = false -> loopRef (hooks w) = true ->
        timers w1 !! r
        = Some {| frame := AwaitStep s'; due := now w1 + 650 |}
        /\ loopRef (hooks w1) = true).
Proof.
  intros Hp Hd Hs. simpl. unfold fire. simpl. rewrite Hp. simpl.
  apply Z.leb_le in Hd. rewrite Hd. simpl. rewrite Hs.
  unfold stopped.
  destruct (flagged s') eqn:Hf; [|destruct (at_ceiling s') eqn:Hc];
    [| |unfold loop_head; simpl; destruct (loopRef (hooks w)) eqn:Hl].
  - eexists _, [_; _; _]. do 2 (split; [reflexivity|]). simpl.
    rewrite !decide_True by done. by repeat split.
  - eexists _, [_; _; _]. do 2 (split; [reflexivity|]). simpl.
    rewrite !decide_True by done. by repeat split.
  - eexists _, [_; _]. do 2 (split; [reflexivity|]). simpl.
    rewrite !decide_True by done. repeat split; try done.
    by rewrite lookup_insert_eq.
  - eexists _, [_; _; _]. do 2 (split; [reflexivity|]). simpl.
    rewrite !decide_True by done. by repeat split.
Qed.

Lemma iterations_run (s : nat -> AgentState) (n j : nat) w r (d : Z) :
  timers w !! r = Some {| frame := AwaitStep (s j); due := d |} ->
  d <= now w + 650 ->
  loopRef (hooks w) = true ->
  (forall k, (j <= k < j + n)%nat -> stepAgent (s k) = Normal (s (S k))) ->
  (forall k, (j < k < j + n)%nat -> stopped (s k) = false) ->
  exists w' seg,
    execs (iterations r n) w = Some w'
    /\ trace w' = seg ++ trace w
    /\ published_by r seg = s <$> seq (S j) n
    /\ called_by r seg = s <$> seq j n
    /\ (n <> 0%nat -> agentState (hooks w') = Some (s (j + n)%nat)).
Proof.
  revert j w d. induction n as [|n IH]; intros j w d Hp Hd Hl Hstep Hgo.
  - exists w, []. by repeat split.
  - destruct (one_iteration w r (s j) (s (S j)) d Hp Hd)
      as (w1 & seg1 & Hex1 & Htr1 & HP1 & HC1 & Hag1 & Hpark);
      [apply Hstep; lia|].
    change (iterations r (S n))
      with ([Elapse 650; Timer r] ++ iterations r n).
    rewrite execs_app, Hex1. simpl.
    destruct n as [|n].
    + exists w1, seg1. simpl. repeat split; try done.
      intros _. by rewrite Nat.add_1_r.
    + destruct Hpark as [Hp1 Hl1]; [apply Hgo; lia|done|].
      destruct (IH (S j) w1 (now w1 + 650) Hp1 ltac:(lia) Hl1)
        as (w2 & seg2 & Hex2 & Htr2 & HP2 & HC2 & Hag2).
      { intros k Hk. apply Hstep. lia. }
      { intros k Hk. apply Hgo. lia. }
      exists w2, (seg2 ++ seg1). split; [done|].
      split; [by rewrite Htr2, Htr1, app_assoc|].
      rewrite published_by_app, called_by_app, HP1, HC1, HP2, HC2.
      repeat split; try done.
      intros _. rewrite Hag2 by done. f_equal. f_equal. lia.
Qed.

(** C1: for a goal [g] with a character that is not whitespace,
    [startAgent g] publishes [initializeAgentState g] before any step, and
    after the settle delay and [n] step delays with nothing else happening,
    where [s k] is the [k]-th iterate of [stepAgent] on the initial state
    and none of [s 1 .. s (n-1)] satisfies a stop predicate, the run has
    published exactly [s 0, .., s n], has stepped exactly [s 0, .., s (n-1)]
    and the agent state shown is [s n]. *)
Theorem uninterrupted_run_publishes_iterates
    (g : jsstring) w0 (n : nat) (s : nat -> AgentState) :
  Exists (fun c => isWhiteSpace c = false) g ->
  s 0%nat = initializeAgentState g ->
  (forall k, (k < n)%nat -> stepAgent (s k) = Normal (s (S k))) ->
  (forall k, (0 < k < n)%nat -> stopped (s k) = false) ->
  trace (startAgent g w0)
  = Published (nextRun w0) (s 0%nat)
      :: Initialized (nextRun w0) g :: trace w0
  /\ exists w seg,
      execs (uninterrupted (nextRun w0) n) (startAgent g w0) = Some w
      /\ trace w = seg ++ trace w0
      /\ published_by (nextRun w0) seg = s <$> seq 0 (S n)
      /\ called_by (nextRun w0) seg = s <$> seq 0 n
      /\ agentState (hooks w) = Some (s n).
Proof.
  intros Hg Hs0 Hstep Hgo. apply trim_nonblank in Hg.
  set (r := nextRun w0).
  assert (Hstart : startAgent g w0
    = delay 150 r (AwaitSettle (s 0%nat))
        (setAgentState r (s 0%nat)
           (record (Initialized r g)
              (setLoopRef false (snd (new_run w0)))))).
  { unfold startAgent. rewrite Hg. simpl. by rewrite Hs0. }
  rewrite Hstart. split; [done|].
  set (w1 := delay 650 r (AwaitStep (s 0%nat))
               (setIsRunning true (setLoopRef true
                  {| hooks := hooks (setAgentState r (s 0%nat)
                                (setLoopRef false w0));
                     timers :=
                       delete r
                         (<[r := {| frame := AwaitSettle (s 0%nat);
                                    due := now w0 + 150 |}]> (timers w0));
                     now := now w0 + 150;
                     nextRun := S r;
                     trace := Published r (s 0%nat)
                                :: Initialized r g :: trace w0 |}))).
  assert (Hsettle :
    execs [Elapse 150; Timer r]
      (delay 150 r (AwaitSettle (s 0%nat))
        (setAgentState r (s 0%nat)
           (record (Initialized r g)
              (setLoopRef false (snd (new_run w0)))))) = Some w1).
  { simpl. unfold fire. simpl. rewrite lookup_insert_eq. simpl.
    by rewrite Z.leb_refl. }
  destruct (iterations_run s n 0 w1 r (now w1 + 650))
    as (w2 & seg2 & Hex2 & Htr2 & HP2 & HC2 & Hag2).
  { simpl. by rewrite lookup_insert_eq. }
  { lia. }
  { done. }
  { intros k Hk. apply Hstep. lia. }
  { intros k Hk. apply Hgo. lia. }
  exists w2, (seg2 ++ [Published r (s 0%nat); Initialized r g]).
  split.
  { unfold uninterrupted.
    change (Elapse 150 :: Timer r :: iterations r n)
      with ([Elapse 150; Timer r] ++ iterations r n).
    by rewrite execs_app, Hsettle. }
  split; [by rewrite Htr2, <- app_assoc|].
  rewrite published_by_app, called_by_app, HP2, HC2. simpl.
  rewrite decide_True by done. repeat split; try done.
  destruct n as [|n]; [|by apply Hag2].
  simpl in Hex2. by injection Hex2 as <-.
Qed.

(** *** Stopping a run *)

Lemma stopped_run_ends w r (cur s' : AgentState) (d : Z) :
  timers w !! r = Some {| frame := AwaitStep cur; due := d |} ->
  d <= now w ->
  loopRef (hooks w) = false ->
  stepAgent cur = Normal s' ->
  exists w',
    exec (Timer r) w = Some w'
    /\ trace w' = Exited r :: Published r s' :: Called r cur :: trace w
    /\ timers w' = delete r (timers w)
    /\ nextRun w' = nextRun w
    /\ isRunning (hooks w') = false
    /\ loopRef (hooks w') = false.
Proof.
  intros Hp Hd Hl Hs. simpl. unfold fire. rewrite Hp. simpl.
  apply Z.leb_le in Hd. rewrite Hd. simpl. rewrite Hs.
  destruct (flagged s'); [|destruct (at_ceiling s')];
    [| |unfold loop_head; simpl; rewrite Hl];
    eexists; by repeat split.
Qed.

Lemma quiet_keeps_flag_clear (ev : Event) w w' r :
  exec ev w = Some w' ->
  ev <> Submit -> ev <> Timer r ->
  all_looping w -> loopRef (hooks w) = false ->
  all_looping w' /\ loopRef (hooks w') = false
  /\ timers w' !! r = timers w !! r
  /\ nextRun w' = nextRun w
  /\ published_by r (trace w') = published_by r (trace w)
  /\ called_by r (trace w') = called_by r (trace w).
Proof.
  intros Hex Hsub Htim Hall Hl.
  destruct ev as [ms|text| | |r']; simpl in Hex; [| |done| |].
  - destruct (0 <=? ms) eqn:Hms; [|done]. by injection Hex as <-.
  - destruct (isRunning (hooks w)); [done|]. by injection Hex as <-.
  - destruct (isRunning (hooks w)); [|done]. by injection Hex as <-.
  - assert (r' <> r) as Hne by congruence.
    unfold fire in Hex. destruct (timers w !! r') as [t|] eqn:Hp; [|done].
    simpl in Hex. destruct (due t <=? now w); [|done].
    injection Hex as <-.
    destruct (Hall _ _ Hp) as [s Hfr]. rewrite Hfr. simpl.
    assert (Hdel : forall r1 t1,
               delete r' (timers w) !! r1 = Some t1 ->
               exists s1, frame t1 = AwaitStep s1).
    { intros r1 t1 H1.
      apply lookup_delete_Some in H1 as [_ H1]. by eapply Hall. }
    assert (Hins : forall s1 d1 r1 t1,
               <[r' := {| frame := AwaitStep s1; due := d1 |}]>
                 (delete r' (timers w)) !! r1 = Some t1 ->
               exists s2, frame t1 = AwaitStep s2).
    { intros s1 d1 r1 t1 H1.
      apply lookup_insert_Some in H1 as [[_ <-]|[_ H1]]; [by eexists|].
      by eapply Hdel. }
    destruct (stepAgent s) as [s'|e]; simpl.
    + destruct (flagged s'); [|destruct (at_ceiling s')];
        [| |unfold loop_head; simpl; rewrite Hl]; simpl;
        rewrite ?decide_False by done;
        rewrite ?lookup_delete_ne by done; by repeat split.
    + rewrite ?decide_False by done.
      rewrite ?lookup_delete_ne by done. by repeat split.
Qed.

(** X9: when a run in its step delay is stopped while no run is in its
    settle delay, and nothing is launched before its timer fires, the run
    makes exactly one more step and publication and none afterwards. *)
Lemma stop_takes_effect_without_relaunch
    (evs : list Event) w w1 r (cur s' : AgentState) (d : Z) :
  reachable w ->
  timers w !! r = Some {| frame := AwaitStep cur; due := d |} ->
  all_looping w ->
  Forall (fun ev => ev <> Submit /\ ev <> Timer r) evs ->
  execs evs (stopAgent w) = Some w1 ->
  d <= now w1 ->
  stepAgent cur = Normal s' ->
  exists w2,
    exec (Timer r) w1 = Some w2
    /\ published_by r (trace w2) = published_by r (trace w) ++ [s']
    /\ called_by r (trace w2) = called_by r (trace w) ++ [cur]
    /\ timers w2 !! r = None
    /\ forall evs' w3,
         execs evs' w2 = Some w3 ->
         published_by r (trace w3) = published_by r (trace w2)
         /\ called_by r (trace w3) = called_by r (trace w2).
Proof.
  intros Hw Hp Hall Hevs Hex Hd Hs.
  assert (Hinv : all_looping w1 /\ loopRef (hooks w1) = false
            /\ timers w1 !! r = timers w !! r
            /\ nextRun w1 = nextRun w
            /\ published_by r (trace w1) = published_by r (trace w)
            /\ called_by r (trace w1) = called_by r (trace w)).
  { assert (Hstart : all_looping (stopAgent w)
              /\ loopRef (hooks (stopAgent w)) = false
              /\ timers (stopAgent w) !! r = timers w !! r
              /\ nextRun (stopAgent w) = nextRun w
              /\ published_by r (trace (stopAgent w))
                 = published_by r (trace w)
              /\ called_by r (trace (stopAgent w))
                 = called_by r (trace w)) by done.
    revert Hstart Hex. generalize (stopAgent w). clear Hd.
    induction Hevs as [|ev evs [Hsub Htim] _ IH]; simpl; intros w0 H0.
    - by intros [= <-].
    - destruct (exec ev w0) as [w0'|] eqn:Hex0; [|done]. simpl.
      destruct H0 as (Ha & Hl & Ht & Hn & HP & HC).
      destruct (quiet_keeps_flag_clear ev w0 w0' r Hex0 Hsub Htim Ha Hl)
        as (Ha' & Hl' & Ht' & Hn' & HP' & HC').
      apply IH. repeat split; try done; congruence. }
  destruct Hinv as (_ & Hl1 & Ht1 & Hn1 & HP1 & HC1).
  rewrite Hp in Ht1.
  destruct (stopped_run_ends w1 r cur s' d Ht1 Hd Hl1 Hs)
    as (w2 & Hex2 & Htr2 & Hti2 & Hn2 & _).
  assert (Hgone : timers w2 !! r = None).
  { rewrite Hti2. apply lookup_delete_eq. }
  assert (HP2 : published_by r (trace w2)
                = published_by r (trace w) ++ [s']).
  { rewrite Htr2. simpl. rewrite decide_True by done. by rewrite HP1. }
  assert (HC2 : called_by r (trace w2) = called_by r (trace w) ++ [cur]).
  { rewrite Htr2. simpl. rewrite decide_True by done. by rewrite HC1. }
  exists w2. do 4 (split; [done|]).
  intros evs' w3 Hex3.
  apply reachable_well_formed in Hw as (Hkeys & _).
  destruct (retired_run_is_silent evs' w2 w3 r) as (seg & -> & Hseg);
    [done| |done|].
  { rewrite Hn2, Hn1. by eapply Hkeys. }
  destruct (silent_run r seg Hseg) as (HP & HC & _).
  by rewrite published_by_app, called_by_app, HP, HC, !app_nil_r.
Qed.
End RunFacts.

(** ** Runs of the sample libraries *)

Import Home.

(** The counting library run for three iterations on [ship]. *)
Lemma uninterrupted_run_witness :
  trace (startAgent (lib := Sample.counting) Sample.ship initial_world)
  = [Published 0 (Sample.counted_state 0); Initialized 0 Sample.ship]
  /\ exists w seg,
      execs (lib := Sample.counting) (uninterrupted 0 3)
        (startAgent Sample.ship initial_world) = Some w
      /\ trace w = seg ++ []
      /\ published_by 0 seg
         = [Sample.counted_state 0; Sample.counted_state 1;
            Sample.counted_state 2; Sample.counted_state 3]
      /\ called_by 0 seg
         = [Sample.counted_state 0; Sample.counted_state 1;
            Sample.counted_state 2]
      /\ agentState (hooks w) = Some (Sample.counted_state 3).
Proof.
  apply (uninterrupted_run_publishes_iterates (lib := Sample.counting)
           Sample.ship initial_world 3 Sample.counted_state).
  - constructor. reflexivity.
  - reflexivity.
  - intros k Hk. simpl. unfold Sample.bump, Sample.counted_state. simpl.
    do 2 f_equal. lia.
  - intros k Hk. unfold stopped, flagged, at_ceiling. simpl.
    apply Z.leb_gt. lia.
Defined.

(** The ceiling of 12 on the counting library, one step after launch. *)
Lemma step_calls_within_ceiling_witness :
  exists w : World (lib := Sample.counting),
    execs Sample.launch_one_step initial_world = Some w
    /\ Z.of_nat (length (called_by 0 (trace w))) <= 12
    /\ (is_Some (timers w !! 0%nat) ->
        Z.of_nat (length (called_by 0 (trace w))) < 12)
    /\ (forall s d,
          timers w !! 0%nat = Some {| frame := AwaitStep s; due := d |} ->
          d <= now w ->
          exists w',
            exec (Timer 0) w = Some w'
            /\ length (called_by 0 (trace w'))
               = S (length (called_by 0 (trace w)))).
Proof.
  eexists. split; [vm_compute; reflexivity|].
  apply (step_calls_within_ceiling (lib := Sample.counting)).
  - reflexivity.
  - intros s s' [= <-]. reflexivity.
  - vm_compute. discriminate.
  - apply (execs_reachable Sample.launch_one_step initial_world);
      [apply reach_initial|vm_compute; reflexivity].
Defined.

(** The shape of a run of the library that starts complete. *)
Lemma only_first_and_last_may_be_stopped_witness :
  exists w : World (lib := Sample.finished),
    execs Sample.launch_one_step initial_world = Some w
    /\ called_by 0 (trace w) `prefix_of` published_by 0 (trace w)
    /\ Forall (fun s => stopped (lib := Sample.finished) s = false)
         (tail (called_by 0 (trace w)))
    /\ (forall (i : nat) s,
          (0 < i)%nat -> (S i < length (published_by 0 (trace w)))%nat ->
          published_by 0 (trace w) !! i = Some s ->
          stopped (lib := Sample.finished) s = false)
    /\ (forall s,
          (2 <= length (published_by 0 (trace w)))%nat ->
          last (published_by 0 (trace w)) = Some s ->
          stopped (lib := Sample.finished) s = true ->
          timers w !! 0%nat = None).
Proof.
  eexists. split; [vm_compute; reflexivity|].
  apply (only_first_and_last_may_be_stopped (lib := Sample.finished)).
  apply (execs_reachable Sample.launch_one_step initial_world);
    [apply reach_initial|vm_compute; reflexivity].
Defined.

(** The initial state is stepped without being tested: when it is complete
    already, [stepAgent] is applied to a state with a stop predicate. *)
Lemma stopped_initial_state_is_stepped :
  exists w : World (lib := Sample.finished),
    execs Sample.launch_one_step initial_world = Some w
    /\ ~ Forall (fun s => stopped (lib := Sample.finished) s = false)
           (called_by 0 (trace w)).
Proof.
  eexists. split; [vm_compute; reflexivity|].
  intros H. apply Forall_inv in H. vm_compute in H. discriminate.
Qed.

(** C4, on a failing input: the first run is stopped at 200 ms, before it
    has made any step, and the page is launched again at 500 ms.  The second
    run sets [loopRef] again at 650 ms, the first run finds it set at 800 ms
    and goes on: by 1450 ms it has made two steps and published two more
    states after the stop, and it is still parked for more. *)
Theorem relaunch_revives_stopped_run :
  exists w_stop w_end : World (lib := Sample.counting),
    execs Sample.before_stop initial_world = Some w_stop
    /\ execs Sample.after_stop w_stop = Some w_end
    /\ isRunning (hooks w_stop) = false
    /\ loopRef (hooks w_stop) = false
    /\ called_by 0 (trace w_stop) = []
    /\ length (called_by 0 (trace w_end)) = 2%nat
    /\ length (published_by 0 (trace w_end)) = 3%nat
    /\ is_Some (timers w_end !! 0%nat).
Proof.
  eexists _, _. split; [vm_compute; reflexivity|].
  split; [vm_compute; reflexivity|].
  repeat split; try (vm_compute; reflexivity).
  vm_compute. eauto.
Qed.

(** C5, on two failing inputs.  Fifty ms after a launch the first run is in
    its settle delay and [isRunning] is still clear; and after the stop of
    [before_stop] the first run is still in its step delay and [isRunning]
    is clear again.  In both worlds a submission is delivered and is not a
    no-op: [initializeAgentState] is called again, a new initial state is
    published and a second call of [startAgent] is parked beside the
    first. *)
Theorem submit_starts_second_run_beside_active_one :
  (exists w : World (lib := Sample.counting),
      execs Sample.launch_and_wait initial_world = Some w
      /\ (exists s d, timers w !! 0%nat
                      = Some {| frame := AwaitSettle s; due := d |})
      /\ isRunning (hooks w) = false
      /\ exec Submit w = Some (handleSubmit w)
      /\ nextRun w = 1%nat /\ nextRun (handleSubmit w) = 2%nat
      /\ length (goals_of (trace w)) = 1%nat
      /\ length (goals_of (trace (handleSubmit w))) = 2%nat
      /\ is_Some (timers (handleSubmit w) !! 0%nat)
      /\ is_Some (timers (handleSubmit w) !! 1%nat))
  /\ (exists w : World (lib := Sample.counting),
      execs Sample.before_stop initial_world = Some w
      /\ (exists s d, timers w !! 0%nat
                      = Some {| frame := AwaitStep s; due := d |})
      /\ isRunning (hooks w) = false
      /\ exec Submit w = Some (handleSubmit w)
      /\ nextRun w = 1%nat /\ nextRun (handleSubmit w) = 2%nat
      /\ length (goals_of (trace w)) = 1%nat
      /\ length (goals_of (trace (handleSubmit w))) = 2%nat
      /\ is_Some (timers (handleSubmit w) !! 0%nat)
      /\ is_Some (timers (handleSubmit w) !! 1%nat)).
Proof.
  split.
  - eexists. split; [vm_compute; reflexivity|].
    split; [eexists _, _; vm_compute; reflexivity|].
    repeat split; try (vm_compute; reflexivity); vm_compute; eauto.
  - eexists. split; [vm_compute; reflexivity|].
    split; [eexists _, _; vm_compute; reflexivity|].
    repeat split; try (vm_compute; reflexivity); vm_compute; eauto.
Qed.

(** C8, on two failing inputs.  Fifty ms after a launch a run is active, in
    its settle delay, and yet the textarea and the submit button are
    enabled and the stop button is disabled.  And once [stepAgent] has
    thrown in the only run, no run is left, and yet the textarea and the
    submit button stay disabled and the stop button enabled. *)
Theorem controls_out_of_step_with_runs :
  (exists w : World (lib := Sample.counting),
      execs Sample.launch_and_wait initial_world = Some w
      /\ (exists s d, timers w !! 0%nat
                      = Some {| frame := AwaitSettle s; due := d |})
      /\ textareaDisabled (render (hooks w)) = false
      /\ submitDisabled (render (hooks w)) = false
      /\ stopDisabled (render (hooks w)) = true)
  /\ (exists w : World (lib := Sample.faulty),
      execs Sample.launch_until_second_step initial_world = Some w
      /\ timers w = ∅
      /\ (exists e, head (trace w) = Some (Rejected 0 e))
      /\ textareaDisabled (render (hooks w)) = true
      /\ submitDisabled (render (hooks w)) = true
      /\ stopDisabled (render (hooks w)) = false).
Proof.
  split.
  - eexists. split; [vm_compute; reflexivity|].
    split; [eexists _, _; vm_compute; reflexivity|].
    repeat split; vm_compute; reflexivity.
  - eexists. split; [vm_compute; reflexivity|].
    split; [vm_compute; reflexivity|].
    split; [eexists; vm_compute; reflexivity|].
    repeat split; vm_compute; reflexivity.
Qed.

(** The faulty library throws at the second step; the page stays in its
    running state. *)
Lemma step_exception_propagates_witness :
  exists w : World (lib := Sample.faulty),
    execs Sample.launch_two_delays initial_world = Some w
    /\ exists w',
      exec (Timer 0) w = Some w'
      /\ hooks w' = hooks w
      /\ isRunning (hooks w') = true.
Proof.
  eexists. split; [vm_compute; reflexivity|].
  destruct (step_exception_propagates (lib := Sample.faulty)
              (default initial_world
                 (execs Sample.launch_two_delays initial_world))
              0%nat
              (Sample.bump
                 (initializeAgentState (AgentLib := Sample.faulty)
                    (trim (goalInput
                       (hooks (initial_world (lib := Sample.faulty)))))))
              1450 "step failed"%string)
    as (w' & Hex & Htr & Hh & Ht & Hrest).
  - apply (execs_reachable Sample.launch_two_delays initial_world);
      [apply reach_initial|vm_compute; reflexivity].
  - vm_compute. reflexivity.
  - vm_compute. discriminate.
  - reflexivity.
  - exists w'. split; [exact Hex|]. split; [exact Hh|].
    rewrite Hh. vm_compute. reflexivity.
Defined.

(** * Further properties *)

(** ** Trimming the goal *)

Lemma trimStart_split (s : jsstring) :
  exists pre, s = pre ++ trimStart s
              /\ Forall (fun c => isWhiteSpace c = true) pre.
Proof.
  induction s as [|c s (pre & IH & Hpre)]; simpl; [by exists []|].
  destruct (isWhiteSpace c) eqn:Hc.
  - exists (c :: pre). split; [by rewrite IH at 1|by constructor].
  - by exists [].
Qed.

Lemma trimStart_head (s : jsstring) (c : N) :
  head (trimStart s) = Some c -> isWhiteSpace c = false.
Proof.
  induction s as [|c' s IH]; simpl; [done|].
  destruct (isWhiteSpace c') eqn:Hc; [done|]. simpl. by intros [= <-].
Qed.

Lemma trimStart_fixed (s : jsstring) (c : N) :
  head s = Some c -> isWhiteSpace c = false -> trimStart s = s.
Proof. destruct s; simpl; [done|]. by intros [= ->] ->. Qed.

Lemma head_rev {A} (l : list A) : head (rev l) = last l.
Proof.
  induction l as [|x l IH] using rev_ind; [done|].
  by rewrite rev_app_distr, last_snoc.
Qed.

Lemma trimEnd_split (s : jsstring) :
  exists post, s = trimEnd s ++ post
               /\ Forall (fun c => isWhiteSpace c = true) post.
Proof.
  unfold trimEnd. destruct (trimStart_split (rev s)) as (pre & Hs & Hpre).
  exists (rev pre). split; [|by apply Forall_rev].
  by rewrite <- rev_app_distr, <- Hs, rev_involutive.
Qed.

Lemma trimEnd_last (s : jsstring) (c : N) :
  last (trimEnd s) = Some c -> isWhiteSpace c = false.
Proof.
  unfold trimEnd. rewrite <- head_rev, rev_involutive.
  apply trimStart_head.
Qed.

Lemma trimEnd_fixed (s : jsstring) (c : N) :
  last s = Some c -> isWhiteSpace c = false -> trimEnd s = s.
Proof.
  intros Hl Hc. unfold trimEnd.
  rewrite (trimStart_fixed (rev s) c); [apply rev_involutive| |done].
  by rewrite head_rev.
Qed.

Lemma trim_split (s : jsstring) :
  exists pre post,
    s = pre ++ trim s ++ post
    /\ Forall (fun c => isWhiteSpace c = true) pre
    /\ Forall (fun c => isWhiteSpace c = true) post.
Proof.
  destruct (trimStart_split s) as (pre & Hs & Hpre).
  destruct (trimEnd_split (trimStart s)) as (post & Ht & Hpost).
  exists pre, post. unfold trim. by rewrite <- Ht.
Qed.

Lemma trim_clean (s : jsstring) : truthy (trim s) = true -> clean (trim s).
Proof.
  intros Hne. split.
  - destruct (trimEnd_split (trimStart s)) as (post & Ht & _).
    unfold trim in *. destruct (trimEnd (trimStart s)) as [|c t] eqn:He;
      [done|].
    exists c. split; [done|]. apply (trimStart_head s).
    by rewrite Ht.
  - destruct (last (trim s)) as [c|] eqn:Hl.
    + exists c. split; [done|]. by apply (trimEnd_last (trimStart s)).
    + apply last_None in Hl. by rewrite Hl in Hne.
Qed.

Lemma clean_trim (s : jsstring) : clean s -> trim s = s.
Proof.
  intros [(c & Hh & Hc) (c' & Hl & Hc')]. unfold trim.
  rewrite (trimStart_fixed s c) by done. by apply (trimEnd_fixed s c').
Qed.

Lemma clean_truthy (s : jsstring) : clean s -> truthy s = true.
Proof. intros [(c & Hh & _) _]. by destruct s. Qed.

Lemma trim_idempotent (s : jsstring) : trim (trim s) = trim s.
Proof.
  destruct (truthy (trim s)) eqn:Hne.
  - by apply clean_trim, trim_clean.
  - destruct (trim s); [done|done].
Qed.

Section SubmitFacts.
Import Home.
Context `{lib : AgentLib}.
Implicit Types (w : World) (r : nat) (s : AgentState) (tr : list Obs).

(** X1: a submission while idle, with a goal text that has a character
    other than whitespace, starts a run on the text without the whitespace
    at its two ends: the initial state of that goal is published and shown,
    the run is parked for its settle delay of 150 ms, and [isRunning] is
    still clear. *)
Theorem submit_starts_trimmed_run w :
  isRunning (hooks w) = false ->
  Exists (fun c => isWhiteSpace c = false) (goalInput (hooks w)) ->
  exists pre g post,
    goalInput (hooks w) = pre ++ g ++ post
    /\ Forall (fun c => isWhiteSpace c = true) pre
    /\ Forall (fun c => isWhiteSpace c = true) post
    /\ clean g
    /\ exec Submit w = Some (handleSubmit w)
    /\ hooks (handleSubmit w)
       = {| goalInput := goalInput (hooks w);
            agentState := Some (initializeAgentState g);
            isRunning := false; loopRef := false |}
    /\ timers (handleSubmit w)
       = <[nextRun w := {| frame := AwaitSettle (initializeAgentState g);
                           due := now w + 150 |}]> (timers w)
    /\ nextRun (handleSubmit w) = S (nextRun w)
    /\ now (handleSubmit w) = now w
    /\ trace (handleSubmit w)
       = Published (nextRun w) (initializeAgentState g)
           :: Initialized (nextRun w) g :: trace w.
Proof.
  intros Hidle Hg. apply trim_nonblank in Hg.
  destruct (trim_split (goalInput (hooks w))) as (pre & post & Hs & Hpre & Hpost).
  exists pre, (trim (goalInput (hooks w))), post.
  do 3 (split; [done|]). split; [by apply trim_clean|].
  split; [simpl; by rewrite Hidle|].
  unfold handleSubmit, startAgent.
  rewrite Hidle, Hg, trim_idempotent, Hg. simpl. by rewrite Hidle.
Qed.
End SubmitFacts.

(** ** Invariants of the page *)

Section PageInvariants.
Import Home.
Context `{lib : AgentLib}.
Implicit Types (w : World) (r : nat) (s : AgentState) (tr : list Obs).

(** X13: the goal text changes only when the user edits it while the page
    is idle; no submission, stop or timer changes it. *)
Theorem goal_text_changes_only_by_typing (ev : Event) w w' :
  exec ev w = Some w' ->
  goalInput (hooks w') = goalInput (hooks w)
  \/ (exists text, ev = Change text /\ isRunning (hooks w) = false
                   /\ goalInput (hooks w') = text).
Proof.
  intros Hex. exec_paths Hex; simpl; eauto.
Qed.

(** X6: while [isRunning] is set, some run is parked in its step delay,
    unless a call of [stepAgent] has thrown. *)
Theorem running_means_parked_or_thrown w :
  reachable w ->
  isRunning (hooks w) = true ->
  (exists r s d,
      timers w !! r = Some {| frame := AwaitStep s; due := d |})
  \/ thrown (trace w).
Proof.
  induction 1 as [|ev w w' _ IH Hex]; [done|].
  exec_paths Hex; simpl; intros Hrun;
    try discriminate Hrun;
    try (by apply IH);
    try (left; eexists _, _, _; by apply lookup_insert_eq);
    try congruence.
  right. eexists _, _. by left.
Qed.

Lemma goals_of_clean_step (ev : Event) w w' :
  exec ev w = Some w' ->
  Forall clean (goals_of (trace w)) -> Forall clean (goals_of (trace w')).
Proof.
  intros Hex Hall. exec_paths Hex; simpl; try done.
  constructor; [|done]. apply trim_clean.
  by apply negb_false_iff.
Qed.

(** X2: whatever the user and the timers do, [initializeAgentState] is only
    ever called on a goal that is not empty and neither starts nor ends with
    whitespace. *)
Theorem agent_initialized_on_clean_goals w :
  reachable w -> Forall clean (goals_of (trace w)).
Proof.
  induction 1 as [|ev w w' _ IH Hex]; [constructor|].
  by eapply goals_of_clean_step.
Qed.
End PageInvariants.

(** ** Where publications come from *)

Section ChainFacts.
Import Home.
Context `{lib : AgentLib}.
Implicit Types (w : World) (r : nat) (s : AgentState) (tr : list Obs).

Lemma chained_snoc (l : list AgentState) s s' :
  chained (l ++ [s]) -> stepAgent s = Normal s' ->
  chained ((l ++ [s]) ++ [s']).
Proof.
  intros Hl Hs. induction l as [|a l IH]; simpl in *; [done|].
  destruct (l ++ [s]) as [|b l'] eqn:Heq.
  { by destruct l. }
  simpl. destruct Hl as [Hab Hl]. split; [done|]. by apply IH.
Qed.

Lemma silent_goal r tr :
  Forall (fun o => run_of o <> r) tr -> goal_of_run r tr = None.
Proof.
  induction 1 as [|o tr Ho _ IH]; [done|].
  destruct o; simpl in *; try done. by rewrite decide_False.
Qed.

Lemma run_origin_Move w w' r :
  well_formed w -> Move w w' -> run_origin w r -> run_origin w' r.
Proof.
  intros Hwf HM [Hch Hhd]. pose proof Hwf as (_ & Hobs & Hruns).
  destruct (Hruns r) as [[_ Hsh] _].
  unfold run_origin. destruct HM; rewrite Htr; simpl; try done.
  - destruct (decide (nextRun w = r)) as [<-|Hne]; [|done].
    destruct (unborn_run w (nextRun w) Hwf) as (-> & _); [lia|]. done.
  - destruct (decide (r0 = r)) as [->|Hne]; [|done].
    rewrite Hp in Hsh. simpl in Hsh. destruct Hsh as [HP _].
    rewrite HP in *. split; [by apply chained_snoc|].
    destruct (goal_of_run r (trace w)).
    + by destruct (called_by r (trace w)).
    + by destruct (called_by r (trace w)).
  - destruct (decide (r0 = r)) as [->|Hne]; [|done].
    rewrite Hp in Hsh. simpl in Hsh. destruct Hsh as [HP _].
    rewrite HP in *. split; [by apply chained_snoc|].
    destruct (goal_of_run r (trace w)).
    + by destruct (called_by r (trace w)).
    + by destruct (called_by r (trace w)).
Qed.

(** X7: under any interleaving the states a run publishes form a chain:
    the first is [initializeAgentState] of the goal the run was started
    with, and each later one is what [stepAgent] returned on the one before
    it. *)
Theorem publications_form_a_chain w r :
  reachable w ->
  chained (published_by r (trace w))
  /\ match goal_of_run r (trace w) with
     | Some g =>
         head (published_by r (trace w)) = Some (initializeAgentState g)
     | None => published_by r (trace w) = []
     end.
Proof.
  induction 1 as [|ev w w' Hw IH Hex]; [done|].
  eapply run_origin_Move; [by apply reachable_well_formed| |exact IH].
  by eapply exec_Move.
Qed.
End ChainFacts.

(** ** Launching twice, and a run to its end *)

Section SoloRun.
Import Home.
Context `{lib : AgentLib}.
Implicit Types (w : World) (r : nat) (s : AgentState) (tr : list Obs).

Lemma startAgent_started (g : jsstring) w :
  truthy (trim g) = true ->
  startAgent g w
  = {| hooks := {| goalInput := goalInput (hooks w);
                   agentState := Some (initializeAgentState g);
                   isRunning := isRunning (hooks w); loopRef := false |};
       timers := <[nextRun w :=
                     {| frame := AwaitSettle (initializeAgentState g);
                        due := now w + 150 |}]> (timers w);
       now := now w; nextRun := S (nextRun w);
       trace := Published (nextRun w) (initializeAgentState g)
                  :: Initialized (nextRun w) g :: trace w |}.
Proof. intros Hg. unfold startAgent. by rewrite Hg. Qed.

Lemma handleSubmit_started w :
  isRunning (hooks w) = false ->
  truthy (trim (goalInput (hooks w))) = true ->
  handleSubmit w = startAgent (trim (goalInput (hooks w))) w
  /\ truthy (trim (trim (goalInput (hooks w)))) = true.
Proof.
  intros Hidle Hg. unfold handleSubmit.
  by rewrite Hidle, Hg, trim_idempotent.
Qed.

(** X3: a second submission within the settle delay of the first is not
    rejected: both runs are parked, each for its own settle delay, on the
    same goal. *)
Theorem second_submit_during_settle_starts_second_run w (ms : Z) :
  isRunning (hooks w) = false ->
  Exists (fun c => isWhiteSpace c = false) (goalInput (hooks w)) ->
  0 <= ms < 150 ->
  exists w',
    execs [Submit; Elapse ms; Submit] w = Some w'
    /\ nextRun w' = S (S (nextRun w))
    /\ timers w' !! nextRun w
       = Some {| frame := AwaitSettle
                   (initializeAgentState (trim (goalInput (hooks w))));
                 due := now w + 150 |}
    /\ timers w' !! S (nextRun w)
       = Some {| frame := AwaitSettle
                   (initializeAgentState (trim (goalInput (hooks w))));
                 due := now w + ms + 150 |}
    /\ now w' < now w + 150.
Proof.
  intros Hidle Hg Hms. apply trim_nonblank in Hg.
  destruct (handleSubmit_started w Hidle Hg) as [Hsub Hg'].
  set (g := trim (goalInput (hooks w))) in *.
  set (w1 := startAgent g w).
  set (w2 := {| hooks := hooks w1; timers := timers w1;
                now := now w1 + ms; nextRun := nextRun w1;
                trace := trace w1 |}).
  assert (H1 : hooks w1
               = {| goalInput := goalInput (hooks w);
                    agentState := Some (initializeAgentState g);
                    isRunning := false; loopRef := false |}).
  { unfold w1. rewrite (startAgent_started g w Hg'). simpl.
    by rewrite Hidle. }
  assert (Hex : execs [Submit; Elapse ms; Submit] w
                = Some (startAgent g w2)).
  { simpl. rewrite Hidle. simpl. rewrite Hsub. fold w1. simpl.
    assert ((0 <=? ms) = true) as -> by (apply Z.leb_le; lia).
    simpl. fold w2. rewrite H1. simpl.
    destruct (handleSubmit_started w2) as [-> _];
      unfold w2; simpl; rewrite H1; simpl; done. }
  exists (startAgent g w2). split; [done|].
  rewrite (startAgent_started g w2 Hg'). simpl.
  unfold w1. rewrite (startAgent_started g w Hg'). simpl.
  split; [done|]. split.
  - rewrite lookup_insert_ne by lia. by rewrite lookup_insert_eq.
  - split; [by rewrite lookup_insert_eq|lia].
Qed.

Lemma settle_delay_over w r (initial : AgentState) (d : Z) :
  timers w !! r = Some {| frame := AwaitSettle initial; due := d |} ->
  d <= now w + 150 ->
  execs [Elapse 150; Timer r] w
  = Some {| hooks := {| goalInput := goalInput (hooks w);
                        agentState := agentState (hooks w);
                        isRunning := true; loopRef := true |};
            timers := <[r := {| frame := AwaitStep initial;
                                due := now w + 150 + 650 |}]> (timers w);
            now := now w + 150; nextRun := nextRun w;
            trace := trace w |}.
Proof.
  intros Hp Hd. simpl. unfold fire. simpl. rewrite Hp. simpl.
  apply Z.leb_le in Hd. rewrite Hd. simpl.
  unfold loop_head, delay. simpl. by rewrite insert_delete_eq.
Qed.

Lemma continuing_iteration w r (cur s' : AgentState) (d : Z) :
  timers w !! r = Some {| frame := AwaitStep cur; due := d |} ->
  d <= now w + 650 ->
  stepAgent cur = Normal s' ->
  stopped s' = false ->
  loopRef (hooks w) = true ->
  execs [Elapse 650; Timer r] w
  = Some {| hooks := {| goalInput := goalInput (hooks w);
                        agentState := Some s';
                        isRunning := isRunning (hooks w);
                        loopRef := true |};
            timers := <[r := {| frame := AwaitStep s';
                                due := now w + 650 + 650 |}]> (timers w);
            now := now w + 650; nextRun := nextRun w;
            trace := Published r s' :: Called r cur :: trace w |}.
Proof.
  intros Hp Hd Hs Hgo Hl. simpl. unfold fire. simpl. rewrite Hp. simpl.
  apply Z.leb_le in Hd. rewrite Hd. simpl. rewrite Hs.
  unfold stopped in Hgo. apply orb_false_iff in Hgo as [-> ->].
  unfold loop_head. simpl. rewrite Hl. simpl.
  unfold delay, setAgentState, record, with_hooks. simpl. by rewrite insert_delete_eq, Hl.
Qed.

Lemma final_iteration w r (cur s' : AgentState) (d : Z) :
  timers w !! r = Some {| frame := AwaitStep cur; due := d |} ->
  d <= now w + 650 ->
  stepAgent cur = Normal s' ->
  stopped s' = true ->
  execs [Elapse 650; Timer r] w
  = Some {| hooks := {| goalInput := goalInput (hooks w);
                        agentState := Some s';
                        isRunning := false; loopRef := false |};
            timers := delete r (timers w);
            now := now w + 650; nextRun := nextRun w;
            trace := Exited r :: Published r s' :: Called r cur
                       :: trace w |}.
Proof.
  intros Hp Hd Hs Hstop. simpl. unfold fire. simpl. rewrite Hp. simpl.
  apply Z.leb_le in Hd. rewrite Hd. simpl. rewrite Hs.
  unfold stopped in Hstop.
  destruct (flagged s'); [done|]. simpl in Hstop. by rewrite Hstop.
Qed.

Lemma iterations_keep_going (s : nat -> AgentState) (m j : nat) w r (d : Z) :
  timers w !! r = Some {| frame := AwaitStep (s j); due := d |} ->
  d <= now w + 650 ->
  loopRef (hooks w) = true ->
  (forall k, (j <= k < j + m)%nat -> stepAgent (s k) = Normal (s (S k))) ->
  (forall k, (j < k <= j + m)%nat -> stopped (s k) = false) ->
  exists w' d',
    execs (iterations r m) w = Some w'
    /\ timers w' !! r
       = Some {| frame := AwaitStep (s (j + m)%nat); due := d' |}
    /\ d' <= now w' + 650
    /\ loopRef (hooks w') = true
    /\ goalInput (hooks w') = goalInput (hooks w)
    /\ now w' = now w + 650 * Z.of_nat m.
Proof.
  revert j w d. induction m as [|m IH]; intros j w d Hp Hd Hl Hstep Hgo.
  - exists w, d. rewrite Nat.add_0_r. repeat split; try done. lia.
  - change (iterations r (S m))
      with ([Elapse 650; Timer r] ++ iterations r m).
    rewrite execs_app.
    rewrite (continuing_iteration w r (s j) (s (S j)) d Hp Hd);
      [|apply Hstep; lia|apply Hgo; lia|done].
    simpl.
    match goal with |- context [execs (iterations r m) ?w1] =>
      destruct (IH (S j) w1 (now w + 650 + 650))
        as (w' & d' & Hex & Hp' & Hd' & Hl' & Hg' & Hn')
    end.
    { simpl. by rewrite lookup_insert_eq. }
    { simpl. lia. }
    { done. }
    { intros k Hk. apply Hstep. lia. }
    { intros k Hk. apply Hgo. lia. }
    exists w', d'. split; [done|]. simpl in *.
    replace (j + S m)%nat with (S j + m)%nat by lia.
    repeat split; try done. lia.
Qed.

(** X8: a run on its own ends at the first state that satisfies a stop
    predicate: after the settle delay and as many step delays as it took to
    reach that state, the state is shown, both flags are clear, the run has
    no timer left, and the clock has advanced by 150 ms and 650 ms per
    step. *)
Theorem solo_run_ends_at_first_stopped_state
    (g : jsstring) w0 (m : nat) (s : nat -> AgentState) :
  Exists (fun c => isWhiteSpace c = false) g ->
  s 0%nat = initializeAgentState g ->
  (forall k, (k <= m)%nat -> stepAgent (s k) = Normal (s (S k))) ->
  (forall k, (0 < k <= m)%nat -> stopped (s k) = false) ->
  stopped (s (S m)) = true ->
  exists w,
    execs (uninterrupted (nextRun w0) (S m)) (startAgent g w0) = Some w
    /\ hooks w
       = {| goalInput := goalInput (hooks w0);
            agentState := Some (s (S m));
            isRunning := false; loopRef := false |}
    /\ timers w !! nextRun w0 = None
    /\ head (trace w) = Some (Exited (nextRun w0))
    /\ now w = now w0 + 150 + 650 * Z.of_nat (S m)
    /\ exec (Timer (nextRun w0)) w = None.
Proof.
  intros Hg Hs0 Hstep Hgo Hstop. apply trim_nonblank in Hg.
  rewrite (startAgent_started g w0 Hg), <- Hs0.
  set (r := nextRun w0).
  assert (Hsplit : forall a,
            iterations r (S a) = iterations r a ++ [Elapse 650; Timer r]).
  { intros a. induction a as [|a IHa]; [done|].
    simpl in *. by rewrite IHa. }
  unfold uninterrupted. rewrite Hsplit.
  change (Elapse 150 :: Timer r :: iterations r m ++ [Elapse 650; Timer r])
    with ([Elapse 150; Timer r]
            ++ iterations r m ++ [Elapse 650; Timer r]).
  rewrite execs_app.
  rewrite (settle_delay_over _ r (s 0%nat) (now w0 + 150));
    [|simpl; by rewrite lookup_insert_eq|simpl; lia].
  simpl. rewrite insert_insert_eq, execs_app.
  match goal with |- context [execs (iterations r m) ?w1] =>
    destruct (iterations_keep_going s m 0 w1 r (now w0 + 150 + 650))
      as (w' & d' & Hex & Hp' & Hd' & Hl' & Hg' & Hn')
  end.
  { simpl. by rewrite lookup_insert_eq. }
  { simpl. lia. }
  { done. }
  { intros k Hk. apply Hstep. lia. }
  { intros k Hk. apply Hgo. lia. }
  rewrite Hex. simpl in Hp', Hd', Hl', Hg', Hn'.
  pose proof (final_iteration w' r (s m) (s (S m)) d' Hp' Hd'
                ltac:(apply Hstep; lia) Hstop) as Hfin.
  eexists. split; [exact Hfin|]. simpl.
  rewrite Hg'. split; [done|]. split; [apply lookup_delete_eq|].
  split; [done|]. split; [lia|].
  unfold fire. simpl. by rewrite lookup_delete_eq.
Qed.
End SoloRun.

(** ** More on the feed and on the helpers *)

Section FeedMore.
Import Feed.

Lemma Array_sort_sorted_input (l : list AgentLog) :
  Sorted ts_le l -> Array_sort byTimestamp l = l.
Proof.
  induction 1 as [|x l Hl IH Hx]; simpl; [done|].
  rewrite IH. destruct Hx as [|y l' Hxy]; simpl; [done|].
  unfold byTimestamp, ts_le in *.
  destruct (0 <? timestamp x - timestamp y) eqn:Hc; [|done].
  apply Z.ltb_lt in Hc. lia.
Qed.

(** X10: the derived feed has as many entries as the state has logs, keeps
    entries with the same timestamp in the order they were stored in, and
    for logs already in timestamp order it is the same list. *)
Theorem orderedLogs_keeps_ties_and_sorted_input
    (l : list AgentLog) (r : loc) (h : heap) :
  h !! r = Some l ->
  exists r' h' out,
    orderedLogs (Some r) h = Some (r', h')
    /\ h' !! r' = Some out
    /\ length out = length l
    /\ (forall t,
          filter (fun a => timestamp a = t) out
          = filter (fun a => timestamp a = t) l)
    /\ (Sorted ts_le l -> out = l).
Proof.
  intros Hr.
  exists (fresh (dom h)),
    (<[fresh (dom h) := Array_sort byTimestamp l]> h),
    (Array_sort byTimestamp l).
  split.
  { unfold orderedLogs, spread, array_literal, sort_in_place.
    rewrite Hr. simpl. rewrite lookup_insert_eq. simpl.
    by rewrite insert_insert_eq. }
  split; [apply lookup_insert_eq|]. split.
  { apply Permutation_length, Array_sort_perm. }
  split; [intros t; apply Array_sort_stable|].
  apply Array_sort_sorted_input.
Qed.
End FeedMore.

Section FormatMore.
Import Format.

Lemma read_label (table : gmap string string) (tag : string) :
  (exists text, read table tag = Label text) <-> is_Some (table !! tag).
Proof.
  unfold read. destruct (table !! tag) as [text|]; split.
  - by eauto.
  - by eauto.
  - intros [text H]. by case_bool_decide.
  - by intros [? ?].
Qed.

Lemma read_missing (table : gmap string string) (tag : string) :
  table !! tag = None ->
  read table tag
  = if bool_decide (tag ∈ objectPrototypeKeys) then Inherited tag
    else Undefined.
Proof. intros H. unfold read. by rewrite H. Qed.

Lemma statusLabels_own (tag : string) :
  is_Some (statusLabels !! tag) <-> exists s, tag = status_tag s.
Proof.
  unfold statusLabels. rewrite !lookup_insert_is_Some, lookup_empty.
  split.
  - intros [<-|[_ [<-|[_ [<-|[_ [<-|[_ [? ?]]]]]]]]];
      [by exists pending|by exists in_progress|by exists completed
      |by exists blocked|done].
  - intros [[] ->]; simpl;
      repeat (first [by left | right; split; [done|]]).
Qed.

Lemma topicLabels_own (tag : string) :
  is_Some (topicLabels !! tag) <-> exists t, tag = topic_tag t.
Proof.
  unfold topicLabels. rewrite !lookup_insert_is_Some, lookup_empty.
  split.
  - intros [<-|[_ [<-|[_ [<-|[_ [<-|[_ [<-|[_ [? ?]]]]]]]]]]];
      [by exists analysis|by exists plan|by exists execution
      |by exists reflection|by exists summary|done].
  - intros [[] ->]; simpl;
      repeat (first [by left | right; split; [done|]]).
Qed.

(** X11: indexing a label table by a tag gives a label exactly when the tag
    is one of the table's enum; for any other tag it gives the member of
    [Object.prototype] of that name when there is one (so "constructor" or
    "__proto__" do not read as undefined) and [undefined] otherwise, while
    the class helpers take their last branch: pending for a status, summary
    for a topic, low for a confidence. *)
Theorem labels_only_for_enum_tags (tag : string) :
  ((exists text, read statusLabels tag = Label text)
   <-> exists s, tag = status_tag s)
  /\ ((exists text, read topicLabels tag = Label text)
      <-> exists t, tag = topic_tag t)
  /\ ((forall s, tag <> status_tag s) ->
      read statusLabels tag
      = (if bool_decide (tag ∈ objectPrototypeKeys) then Inherited tag
         else Undefined)
      /\ taskStatusClass tag = taskStatusPending)
  /\ ((forall t, tag <> topic_tag t) ->
      read topicLabels tag
      = (if bool_decide (tag ∈ objectPrototypeKeys) then Inherited tag
         else Undefined)
      /\ topicClass tag = topicSummary)
  /\ ((forall c, tag <> confidence_tag c) ->
      confidenceClass tag = confidenceLow)
  /\ read statusLabels "constructor" = Inherited "constructor"
  /\ read topicLabels "__proto__" = Inherited "__proto__"
  /\ read statusLabels "done" = Undefined.
Proof.
  split; [by rewrite read_label, statusLabels_own|].
  split; [by rewrite read_label, topicLabels_own|].
  split; [|split; [|split]].
  - intros Hno. split.
    + apply read_missing, eq_None_not_Some. rewrite statusLabels_own.
      intros [s ->]. by eapply Hno.
    + unfold taskStatusClass.
      destruct (String.eqb_spec tag "completed") as [->|_];
        [by destruct (Hno completed)|].
      destruct (String.eqb_spec tag "in-progress") as [->|_];
        [by destruct (Hno in_progress)|].
      destruct (String.eqb_spec tag "blocked") as [->|_];
        [by destruct (Hno blocked)|]. done.
  - intros Hno. split.
    + apply read_missing, eq_None_not_Some. rewrite topicLabels_own.
      intros [s ->]. by eapply Hno.
    + unfold topicClass.
      destruct (String.eqb_spec tag "analysis") as [->|_];
        [by destruct (Hno analysis)|].
      destruct (String.eqb_spec tag "plan") as [->|_];
        [by destruct (Hno plan)|].
      destruct (String.eqb_spec tag "execution") as [->|_];
        [by destruct (Hno execution)|].
      destruct (String.eqb_spec tag "reflection") as [->|_];
        [by destruct (Hno reflection)|]. done.
  - intros Hno. unfold confidenceClass.
    destruct (String.eqb_spec tag "high") as [->|_];
      [by destruct (Hno high)|].
    destruct (String.eqb_spec tag "medium") as [->|_];
      [by destruct (Hno medium)|]. done.
  - repeat split; vm_compute; reflexivity.
Qed.
(** X12: two different values of an enum never get the same class, and two
    different statuses or topics never the same label. *)
Theorem badges_tell_values_apart :
  (forall a b : AgentTaskStatus,
      taskStatusClass (status_tag a) = taskStatusClass (status_tag b)
      \/ statusLabels !! status_tag a = statusLabels !! status_tag b ->
      a = b)
  /\ (forall a b : AgentTopic,
      topicClass (topic_tag a) = topicClass (topic_tag b)
      \/ topicLabels !! topic_tag a = topicLabels !! topic_tag b ->
      a = b)
  /\ (forall a b : Confidence,
      confidenceClass (confidence_tag a) = confidenceClass (confidence_tag b)
      -> a = b).
Proof.
  repeat split.
  - intros [] [] [H|H]; vm_compute in H; congruence.
  - intros [] [] [H|H]; vm_compute in H; congruence.
  - intros [] [] H; vm_compute in H; congruence.
Qed.
End FormatMore.

(** ** The state shown and the panels *)

Section ShownState.
Import Home.
Context `{lib : AgentLib}.
Implicit Types (w : World) (r : nat) (s : AgentState) (tr : list Obs).

(** X14: the page has no agent state exactly as long as no run was ever
    started; once there is one it is never cleared. *)
Theorem agent_state_is_never_cleared w :
  reachable w ->
  (agentState (hooks w) = None <-> nextRun w = 0%nat).
Proof.
  induction 1 as [|ev w w' Hw IH Hex]; [done|].
  pose proof (reachable_well_formed w Hw) as (Hkeys & _).
  exec_paths Hex; simpl; try done;
    (split; [intros Hnone|intros Hzero]); try done; try lia;
    match goal with
    | H : timers w !! ?n = Some _ |- _ => apply Hkeys in H; lia
    end.
Qed.
End ShownState.

Section PanelFacts.
Import Feed Format Panels.

Lemma logArticle_labelled (log : AgentLog) :
  article_class (logArticle log) = topic_style (topic log)
  /\ is_Some (article_label (logArticle log)).
Proof. destruct log as [? [] ? ?]; simpl; split; vm_compute; eauto. Qed.

Lemma taskCard_labelled (task : AgentTask) :
  card_class (taskCard task) = status_style (status task)
  /\ is_Some (card_label (taskCard task)).
Proof. destruct task as [? ? ? [] ?]; simpl; split; vm_compute; eauto. Qed.

(** X15: the log panel shows the placeholder exactly when the state has no
    logs: with the placeholder the logs are empty, and otherwise there is
    at least one article, one per log, in non-decreasing timestamp order,
    each with the key and message of its log, the class of its topic and a
    label; the caption counts the logs. *)
Theorem log_feed_shows_every_log_in_order
    (st : AgentState) (r : loc) (h : heap) :
  h !! r = Some (logs st) ->
  exists r' h' out,
    orderedLogs (Some r) h = Some (r', h')
    /\ h' !! r' = Some out
    /\ logCaption out = length (logs st)
    /\ match logFeed out with
       | EmptyState _ => logs st = []
       | Items articles =>
           (0 < length articles)%nat
           /\ length articles = length (logs st)
           /\ Sorted Z.le (article_time <$> articles)
           /\ article_time <$> articles ≡ₚ timestamp <$> logs st
           /\ Forall2 (fun log article =>
                         article_key article = log_id log
                         /\ article_message article = message log
                         /\ article_class article = topic_style (topic log)
                         /\ is_Some (article_label article))
                out articles
       end.
Proof.
  intros Hr.
  set (out := Array_sort byTimestamp (logs st)).
  assert (Hperm : out ≡ₚ logs st) by apply Array_sort_perm.
  exists (fresh (dom h)), (<[fresh (dom h) := out]> h), out.
  split.
  { unfold orderedLogs, spread, array_literal, sort_in_place.
    rewrite Hr. simpl. rewrite lookup_insert_eq. simpl.
    by rewrite insert_insert_eq. }
  split; [apply lookup_insert_eq|].
  split; [by apply Permutation_length|].
  unfold logFeed. destruct out as [|a out'] eqn:Hout.
  - simpl. symmetry in Hperm. by apply Permutation_nil_r in Hperm.
  - change (length (a :: out') =? 0)%nat with false. cbv iota.
    rewrite <- Hout in *.
    split; [rewrite length_fmap, Hout; simpl; lia|].
    split; [by rewrite length_fmap, Hperm|]. split.
    { rewrite <- list_fmap_compose.
      assert (Hs : Sorted ts_le out) by apply Array_sort_sorted.
      clear -Hs. induction Hs as [|x l Hl IH Hx]; simpl; [constructor|].
      constructor; [done|]. destruct Hx; simpl; by constructor. }
    split.
    { rewrite <- list_fmap_compose. by rewrite Hperm. }
    apply Forall2_fmap_r, Forall_Forall2_diag, Forall_forall.
    intros log _. pose proof (logArticle_labelled log) as [? ?]. done.
Qed.

(** X16: the task panel shows the placeholder exactly when there is no
    state or no task; otherwise one card per task, in order, with the class
    of the task's status and a label, and an insight list exactly when the
    task has insights; the caption counts the tasks. *)
Theorem task_cards_match_the_tasks (agentState : option AgentState) :
  match taskList agentState with
  | EmptyState _ =>
      taskCaption agentState = 0%nat
      /\ (forall st, agentState = Some st -> tasks st = [])
  | Items cards =>
      exists st,
        agentState = Some st
        /\ taskCaption agentState = length cards
        /\ (0 < length cards)%nat
        /\ Forall2 (fun task card =>
                      card_key card = task_id task
                      /\ card_class card = status_style (status task)
                      /\ is_Some (card_label card)
                      /\ (card_insights card = None
                          <-> insights task = []))
             (tasks st) cards
  end.
Proof.
  destruct agentState as [st|]; [|done].
  unfold taskList, taskCaption.
  destruct (tasks st) as [|t ts] eqn:Hts.
  - simpl. split; [done|]. by intros st' [= <-].
  - change (0 <? length (t :: ts))%nat with true. cbv iota.
    exists st. split; [done|]. rewrite Hts, length_fmap.
    split; [done|]. split; [simpl; lia|].
    apply Forall2_fmap_r, Forall_Forall2_diag, Forall_forall.
    intros task _. pose proof (taskCard_labelled task) as [? ?].
    repeat split; try done.
    + simpl. by destruct (insights task).
    + simpl. by intros ->.
Qed.
End PanelFacts.

(** ** The further properties on the sample libraries *)

Lemma submit_starts_trimmed_run_witness :
  let w : World (lib := Sample.counting) :=
    setGoalInput (js_of_string "  Ship feature X ") initial_world in
  exists pre g post,
    goalInput (hooks w) = pre ++ g ++ post
    /\ Forall (fun c => isWhiteSpace c = true) pre
    /\ Forall (fun c => isWhiteSpace c = true) post
    /\ clean g
    /\ exec Submit w = Some (handleSubmit w)
    /\ trace (handleSubmit w)
       = [Published 0
            (initializeAgentState (AgentLib := Sample.counting) g);
          Initialized 0 g].
Proof.
  intros w.
  destruct (submit_starts_trimmed_run (lib := Sample.counting) w)
    as (pre & g & post & H1 & H2 & H3 & H4 & H5 & _ & _ & _ & _ & H6).
  - reflexivity.
  - vm_compute. do 2 apply Exists_cons_tl. by apply Exists_cons_hd.
  - by exists pre, g, post.
Defined.

Lemma agent_initialized_on_clean_goals_witness :
  Forall clean
    (goals_of (trace (Sample.after (lib := Sample.counting)
                        (Sample.before_stop ++ Sample.after_stop)))).
Proof.
  apply (agent_initialized_on_clean_goals (lib := Sample.counting)).
  apply (execs_reachable (Sample.before_stop ++ Sample.after_stop)
           initial_world); [apply reach_initial|vm_compute; reflexivity].
Defined.

Lemma second_submit_during_settle_witness :
  exists w' : World (lib := Sample.counting),
    execs [Submit; Elapse 50; Submit] initial_world = Some w'
    /\ nextRun w' = 2%nat
    /\ (exists s, timers w' !! 0%nat
                  = Some {| frame := AwaitSettle s; due := 150 |})
    /\ (exists s, timers w' !! 1%nat
                  = Some {| frame := AwaitSettle s; due := 200 |}).
Proof.
  destruct (second_submit_during_settle_starts_second_run
              (lib := Sample.counting) initial_world 50)
    as (w' & Hex & Hn & H0 & H1 & _).
  - reflexivity.
  - constructor. reflexivity.
  - lia.
  - exists w'. split; [exact Hex|]. split; [exact Hn|]. split; eauto.
Defined.

Lemma running_means_parked_or_thrown_witness :
  let w := Sample.after (lib := Sample.faulty) Sample.launch_one_step in
  (exists r s d,
      timers w !! r = Some {| frame := AwaitStep s; due := d |})
  \/ thrown (trace w).
Proof.
  apply (running_means_parked_or_thrown (lib := Sample.faulty)).
  - apply (execs_reachable Sample.launch_one_step initial_world);
      [apply reach_initial|vm_compute; reflexivity].
  - vm_compute. reflexivity.
Defined.

Lemma publications_form_a_chain_witness :
  let w := Sample.after (lib := Sample.counting)
             (Sample.before_stop ++ Sample.after_stop) in
  chained (lib := Sample.counting) (published_by 0 (trace w))
  /\ match goal_of_run 0 (trace w) with
     | Some g =>
         head (published_by 0 (trace w))
         = Some (initializeAgentState (AgentLib := Sample.counting) g)
     | None => published_by 0 (trace w) = []
     end.
Proof.
  apply (publications_form_a_chain (lib := Sample.counting)).
  apply (execs_reachable (Sample.before_stop ++ Sample.after_stop)
           initial_world); [apply reach_initial|vm_compute; reflexivity].
Defined.

Lemma solo_run_ends_witness :
  exists w : World (lib := Sample.counting),
    execs (uninterrupted 0 12) (startAgent Sample.ship initial_world)
    = Some w
    /\ hooks w
       = {| goalInput := goalInput (hooks (initial_world
                                             (lib := Sample.counting)));
            agentState := Some (Sample.counted_state 12);
            isRunning := false; loopRef := false |}
    /\ timers w !! 0%nat = None
    /\ head (trace w) = Some (Exited 0)
    /\ now w = 0 + 150 + 650 * Z.of_nat 12
    /\ exec (Timer 0) w = None.
Proof.
  apply (solo_run_ends_at_first_stopped_state (lib := Sample.counting)
           Sample.ship initial_world 11 Sample.counted_state).
  - constructor. reflexivity.
  - reflexivity.
  - intros k Hk. simpl. unfold Sample.bump, Sample.counted_state. simpl.
    do 2 f_equal. lia.
  - intros k Hk. unfold stopped, flagged, at_ceiling. simpl.
    apply Z.leb_gt. lia.
  - reflexivity.
Defined.

Lemma stop_takes_effect_witness :
  let w := Sample.after (lib := Sample.counting) Sample.launch_in_loop in
  exists w1 w2 : World (lib := Sample.counting),
    execs [Elapse 50; Change Sample.ship; Elapse 600] (stopAgent w)
    = Some w1
    /\ exec (Timer 0) w1 = Some w2
    /\ length (published_by 0 (trace w2)) = 2%nat
    /\ length (called_by 0 (trace w2)) = 1%nat
    /\ timers w2 !! 0%nat = None.
Proof.
  intros w.
  set (w1 := default w (execs [Elapse 50; Change Sample.ship; Elapse 600]
                          (stopAgent w))).
  assert (Hex : execs [Elapse 50; Change Sample.ship; Elapse 600]
                  (stopAgent w) = Some w1)
    by (vm_compute; reflexivity).
  destruct (stop_takes_effect_without_relaunch (lib := Sample.counting)
              [Elapse 50; Change Sample.ship; Elapse 600] w w1 0%nat
              (initializeAgentState (AgentLib := Sample.counting)
                 (trim (goalInput (hooks (initial_world
                                            (lib := Sample.counting))))))
              (Sample.bump
                 (initializeAgentState (AgentLib := Sample.counting)
                    (trim (goalInput (hooks (initial_world
                                            (lib := Sample.counting)))))))
              800)
    as (w2 & Hfire & HP & HC & Hgone & _).
  - apply (execs_reachable Sample.launch_in_loop initial_world);
      [apply reach_initial|vm_compute; reflexivity].
  - vm_compute. reflexivity.
  - intros r t Hr.
    assert (Ht : timers w = {[0%nat := t]} \/ timers w !! r = None).
    { destruct r as [|r]; [left|right].
      - vm_compute in Hr. injection Hr as <-. vm_compute. reflexivity.
      - apply not_elem_of_dom. 
        assert (dom (timers w) = {[0%nat]}) as -> by (vm_compute; reflexivity).
        set_solver. }
    destruct Ht as [Ht|Ht]; [|congruence].
    rewrite Ht in Hr. apply lookup_singleton_Some in Hr as [<- _].
    assert (timers w !! 0%nat = Some t) by (rewrite Ht; apply lookup_singleton_eq).
    vm_compute in H. injection H as <-. eexists. reflexivity.
  - repeat constructor; discriminate.
  - exact Hex.
  - vm_compute. discriminate.
  - reflexivity.
  - exists w1, w2. split; [exact Hex|]. split; [exact Hfire|].
    rewrite HP, HC. split; [reflexivity|]. split; [reflexivity|exact Hgone].
Defined.

Lemma orderedLogs_keeps_ties_witness :
  let h : Feed.heap := {[ 1%positive := logs Sample.logged ]} in
  exists r' h' out,
    Feed.orderedLogs (Some 1%positive) h = Some (r', h')
    /\ h' !! r' = Some out
    /\ length out = 4%nat
    /\ (forall t,
          filter (fun a => timestamp a = t) out
          = filter (fun a => timestamp a = t) (logs Sample.logged))
    /\ (Sorted Feed.ts_le (logs Sample.logged) -> out = logs Sample.logged).
Proof.
  intros h.
  apply (orderedLogs_keeps_ties_and_sorted_input
           (logs Sample.logged) 1%positive h).
  vm_compute. reflexivity.
Defined.

Lemma goal_text_changes_only_by_typing_witness :
  let w : World (lib := Sample.counting) := initial_world in
  goalInput (hooks (setGoalInput Sample.ship w)) = goalInput (hooks w)
  \/ (exists text,
        Change Sample.ship = Change text /\ isRunning (hooks w) = false
        /\ goalInput (hooks (setGoalInput Sample.ship w)) = text).
Proof.
  intros w.
  apply (goal_text_changes_only_by_typing (lib := Sample.counting)
           (Change Sample.ship) w (setGoalInput Sample.ship w)).
  reflexivity.
Defined.

Lemma agent_state_is_never_cleared_witness :
  let w := Sample.after (lib := Sample.counting) Sample.before_stop in
  agentState (hooks w) = None <-> nextRun w = 0%nat.
Proof.
  apply (agent_state_is_never_cleared (lib := Sample.counting)).
  apply (execs_reachable Sample.before_stop initial_world);
    [apply reach_initial|vm_compute; reflexivity].
Defined.

Lemma log_feed_witness :
  let h : Feed.heap := {[ 1%positive := logs Sample.planned ]} in
  exists r' h' out,
    Feed.orderedLogs (Some 1%positive) h = Some (r', h')
    /\ h' !! r' = Some out
    /\ Panels.logCaption out = 4%nat
    /\ match Panels.logFeed out with
       | Panels.EmptyState _ => logs Sample.planned = []
       | Panels.Items articles =>
           (0 < length articles)%nat
           /\ length articles = 4%nat
           /\ Sorted Z.le (Panels.article_time <$> articles)
           /\ Panels.article_time <$> articles
              ≡ₚ timestamp <$> logs Sample.planned
           /\ Forall2 (fun log article =>
                         Panels.article_key article = log_id log
                         /\ Panels.article_message article = message log
                         /\ Panels.article_class article
                            = Format.topic_style (topic log)
                         /\ is_Some (Panels.article_label article))
                out articles
       end.
Proof.
  intros h.
  apply (log_feed_shows_every_log_in_order Sample.planned 1%positive h).
  vm_compute. reflexivity.
Defined.
